(** * Student Registration System (project2/script.js)

    A shallow embedding of the script and the properties of its
    validator, record store, form controller and table renderer.

    Strings are JavaScript strings: finite sequences of UTF-16 code units.
    A code unit is a number (type [N]); every statement below holds for all
    numbers, hence for the 16-bit ones. *)

From Stdlib Require Import List NArith ZArith Lia Bool String Ascii.
Import ListNotations.

Set Implicit Arguments.
Set Warnings "-register-all".

Local Open Scope N_scope.

(* ================================================================= *)
(** ** JavaScript strings *)

Module JsString.

Definition jsstring := list N.

(** A source literal, read as code units. *)
Definition lit (s : string) : jsstring :=
  map N_of_ascii (list_ascii_of_string s).

Definition jsstring_eqb (a b : jsstring) : bool :=
  if list_eq_dec N.eq_dec a b then true else false.

(** WhiteSpace and LineTerminator of ECMAScript: the characters removed by
    [String.prototype.trim] and matched by the class [\s]. *)
Definition is_space (c : N) : bool :=
  ((9 <=? c) && (c <=? 13)) || (c =? 32) || (c =? 160) || (c =? 5760)
  || ((8192 <=? c) && (c <=? 8202)) || (c =? 8232) || (c =? 8233)
  || (c =? 8239) || (c =? 8287) || (c =? 12288) || (c =? 65279).

Fixpoint trimStart (s : jsstring) : jsstring :=
  match s with
  | c :: r => if is_space c then trimStart r else s
  | [] => []
  end.

Definition trimEnd (s : jsstring) : jsstring := rev (trimStart (rev s)).

Definition trim (s : jsstring) : jsstring := trimEnd (trimStart s).

(** Truthiness of a string: [!s] holds exactly for the empty string. *)
Definition falsy (s : jsstring) : bool :=
  match s with [] => true | _ => false end.

Definition is_upper (c : N) : bool := (65 <=? c) && (c <=? 90).
Definition is_lower (c : N) : bool := (97 <=? c) && (c <=? 122).
Definition is_digit (c : N) : bool := (48 <=? c) && (c <=? 57).

Definition AT : N := 64.        (* @ *)
Definition DOT : N := 46.       (* . *)
Definition SPACE : N := 32.

End JsString.
Import JsString.

(* ================================================================= *)
(** ** Regular expressions

    The four patterns of [validateForm] use character classes, literal
    characters, concatenation, [+] and [{10,}], anchored by [^] and [$]
    (no [m] flag).  For such patterns [RegExp.prototype.test] decides
    membership of the whole string in the pattern's language; it is
    computed here with derivatives. *)

Module Regex.

Inductive regex : Type :=
| Void : regex
| Eps : regex
| Cls : (N -> bool) -> regex
| Cat : regex -> regex -> regex
| Alt : regex -> regex -> regex
| Star : regex -> regex.

(** [r+] *)
Definition Plus (r : regex) : regex := Cat r (Star r).

(** [[r]{n,}] *)
Fixpoint AtLeast (n : nat) (r : regex) : regex :=
  match n with
  | O => Star r
  | S k => Cat r (AtLeast k r)
  end.

Definition Chr (c : N) : regex := Cls (N.eqb c).

Fixpoint nullable (r : regex) : bool :=
  match r with
  | Void => false
  | Eps => true
  | Cls _ => false
  | Cat a b => nullable a && nullable b
  | Alt a b => nullable a || nullable b
  | Star _ => true
  end.

Fixpoint deriv (c : N) (r : regex) : regex :=
  match r with
  | Void => Void
  | Eps => Void
  | Cls p => if p c then Eps else Void
  | Cat a b =>
      if nullable a then Alt (Cat (deriv c a) b) (deriv c b)
      else Cat (deriv c a) b
  | Alt a b => Alt (deriv c a) (deriv c b)
  | Star a => Cat (deriv c a) (Star a)
  end.

(** [/^r$/.test(s)] *)
Fixpoint test (r : regex) (s : jsstring) : bool :=
  match s with
  | [] => nullable r
  | c :: s' => test (deriv c r) s'
  end.

(** The language of a pattern. *)
Inductive Matches : regex -> jsstring -> Prop :=
| MEps : Matches Eps []
| MCls p c : p c = true -> Matches (Cls p) [c]
| MCat a b s t : Matches a s -> Matches b t -> Matches (Cat a b) (s ++ t)
| MAltL a b s : Matches a s -> Matches (Alt a b) s
| MAltR a b s : Matches b s -> Matches (Alt a b) s
| MStar0 a : Matches (Star a) []
| MStarS a s t : Matches a s -> Matches (Star a) t -> Matches (Star a) (s ++ t).

End Regex.
Import Regex.

(* ================================================================= *)
(** ** Student records and the validator's patterns *)

Record StudentRecord : Type := mkStudent {
  name : jsstring;
  id : jsstring;
  email : jsstring;
  contact : jsstring
}.

Definition record_eqb (a b : StudentRecord) : bool :=
  jsstring_eqb (name a) (name b) && jsstring_eqb (id a) (id b)
  && jsstring_eqb (email a) (email b) && jsstring_eqb (contact a) (contact b).

(** [[A-Za-z ]] *)
Definition name_class (c : N) : bool := is_upper c || is_lower c || (c =? SPACE).
(** [[0-9]] *)
Definition digit_class (c : N) : bool := is_digit c.
(** [[^\s@]] *)
Definition email_class (c : N) : bool := negb (is_space c || (c =? AT)).

(** [/^[A-Za-z ]+$/] *)
Definition name_re : regex := Plus (Cls name_class).
(** [/^[0-9]+$/] *)
Definition id_re : regex := Plus (Cls digit_class).
(** [/^[^\s@]+@[^\s@]+\.[^\s@]+$/] *)
Definition email_re : regex :=
  Cat (Plus (Cls email_class))
    (Cat (Chr AT)
       (Cat (Plus (Cls email_class))
          (Cat (Chr DOT) (Plus (Cls email_class))))).
(** [/^[0-9]{10,}$/] *)
Definition contact_re : regex := AtLeast 10 (Cls digit_class).

(** The four field constraints of a record. *)
Definition valid_record (r : StudentRecord) : bool :=
  test name_re (name r) && test id_re (id r)
  && test email_re (email r) && test contact_re (contact r).

(* ================================================================= *)
(** ** JSON: values, [JSON.stringify] of the store, [JSON.parse] *)

Module Json.

(** A parsed JSON value.  A number keeps its source text; no claim reads
    its numeric value.  An object lists its properties in creation order. *)
Inductive value : Type :=
| VNull : value
| VBool : bool -> value
| VNum : jsstring -> value
| VStr : jsstring -> value
| VArr : list value -> value
| VObj : list (jsstring * value) -> value.

Definition QUOTE : N := 34.      (* double quote *)
Definition BACKSLASH : N := 92.
Definition COMMA : N := 44.
Definition COLON : N := 58.
Definition LBRACKET : N := 91.
Definition RBRACKET : N := 93.
Definition LBRACE : N := 123.
Definition RBRACE : N := 125.

(** *** Serialisation *)

Definition hex_digit (d : N) : N :=
  if d <? 10 then 48 + d else 87 + d.     (* 0-9, a-f *)

(** [\uXXXX] with lower-case hexadecimal digits. *)
Definition unicode_escape (c : N) : jsstring :=
  [BACKSLASH; 117;
   hex_digit ((c / 4096) mod 16); hex_digit ((c / 256) mod 16);
   hex_digit ((c / 16) mod 16); hex_digit (c mod 16)].

Definition is_high_surrogate (c : N) : bool := (55296 <=? c) && (c <=? 56319).
Definition is_low_surrogate (c : N) : bool := (56320 <=? c) && (c <=? 57343).

(** One code unit that is not part of a surrogate pair, as QuoteJSONString
    writes it. *)
Definition quote_unit (c : N) : jsstring :=
  if c =? 8 then [BACKSLASH; 98]
  else if c =? 9 then [BACKSLASH; 116]
  else if c =? 10 then [BACKSLASH; 110]
  else if c =? 12 then [BACKSLASH; 102]
  else if c =? 13 then [BACKSLASH; 114]
  else if c =? QUOTE then [BACKSLASH; QUOTE]
  else if c =? BACKSLASH then [BACKSLASH; BACKSLASH]
  else if (c <? 32) || is_high_surrogate c || is_low_surrogate c
       then unicode_escape c
  else [c].

(** The characters between the quotes: a well-formed surrogate pair is
    copied, a lone surrogate is escaped. *)
Fixpoint quote_body (s : jsstring) : jsstring :=
  match s with
  | [] => []
  | c :: r =>
      match r with
      | d :: r' =>
          if is_high_surrogate c && is_low_surrogate d
          then c :: d :: quote_body r'
          else quote_unit c ++ quote_body r
      | [] => quote_unit c
      end
  end.

Definition quote (s : jsstring) : jsstring :=
  QUOTE :: quote_body s ++ [QUOTE].

Definition property (key : string) (v : jsstring) : jsstring :=
  quote (lit key) ++ COLON :: quote v.

(** [JSON.stringify] of an object [{ name, id, email, contact }]. *)
Definition stringify_record (r : StudentRecord) : jsstring :=
  LBRACE :: property "name" (name r) ++ COMMA :: property "id" (id r)
  ++ COMMA :: property "email" (email r)
  ++ COMMA :: property "contact" (contact r) ++ [RBRACE].

(** An array element; a hole is written [null]. *)
Definition stringify_element (o : option StudentRecord) : jsstring :=
  match o with
  | Some r => stringify_record r
  | None => lit "null"
  end.

Fixpoint stringify_elements (l : list (option StudentRecord)) : jsstring :=
  match l with
  | [] => []
  | [o] => stringify_element o
  | o :: l' => stringify_element o ++ COMMA :: stringify_elements l'
  end.

(** [JSON.stringify(students)] *)
Definition stringify (l : list (option StudentRecord)) : jsstring :=
  LBRACKET :: stringify_elements l ++ [RBRACKET].

(** *** Parsing *)

(** Outcome of a parsing function: a result with the unread text, a
    SyntaxError, or the recursion bound exhausted ([JSON_parse] below
    gives a bound that is never exhausted). *)
Inductive presult (A : Type) : Type :=
| POk : A -> jsstring -> presult A
| PErr : presult A
| PFuel : presult A.
Arguments PErr {A}.
Arguments PFuel {A}.

Definition pbind {A B : Type} (p : presult A) (k : A -> jsstring -> presult B)
  : presult B :=
  match p with
  | POk a r => k a r
  | PErr => PErr
  | PFuel => PFuel
  end.

Definition of_option {A : Type} (o : option (A * jsstring)) : presult A :=
  match o with
  | Some (a, r) => POk a r
  | None => PErr
  end.

(** JSON white space: tab, line feed, carriage return, space. *)
Definition is_json_ws (c : N) : bool :=
  (c =? 9) || (c =? 10) || (c =? 13) || (c =? 32).

Fixpoint skip_ws (s : jsstring) : jsstring :=
  match s with
  | c :: r => if is_json_ws c then skip_ws r else s
  | [] => []
  end.

Definition hex_value (c : N) : option N :=
  if is_digit c then Some (c - 48)
  else if (97 <=? c) && (c <=? 102) then Some (c - 87)
  else if (65 <=? c) && (c <=? 70) then Some (c - 55)
  else None.

Definition hex4 (a b c d : N) : option N :=
  match hex_value a, hex_value b, hex_value c, hex_value d with
  | Some x, Some y, Some z, Some w => Some (((x * 16 + y) * 16 + z) * 16 + w)
  | _, _, _, _ => None
  end.

Definition cons_ok (c : N) (o : option (jsstring * jsstring))
  : option (jsstring * jsstring) :=
  match o with
  | Some (v, r) => Some (c :: v, r)
  | None => None
  end.

(** Characters of a string up to its closing quote (the opening quote is
    already read). *)
Fixpoint parse_string (s : jsstring) : option (jsstring * jsstring) :=
  match s with
  | [] => None
  | c :: r =>
      if c =? QUOTE then Some ([], r)
      else if c =? BACKSLASH then
        match r with
        | [] => None
        | e :: r1 =>
            if e =? QUOTE then cons_ok QUOTE (parse_string r1)
            else if e =? BACKSLASH then cons_ok BACKSLASH (parse_string r1)
            else if e =? 47 then cons_ok 47 (parse_string r1)
            else if e =? 98 then cons_ok 8 (parse_string r1)
            else if e =? 102 then cons_ok 12 (parse_string r1)
            else if e =? 110 then cons_ok 10 (parse_string r1)
            else if e =? 114 then cons_ok 13 (parse_string r1)
            else if e =? 116 then cons_ok 9 (parse_string r1)
            else if e =? 117 then
              match r1 with
              | h1 :: h2 :: h3 :: h4 :: r2 =>
                  match hex4 h1 h2 h3 h4 with
                  | Some u => cons_ok u (parse_string r2)
                  | None => None
                  end
              | _ => None
              end
            else None
        end
      else if c <? 32 then None
      else cons_ok c (parse_string r)
  end.

Fixpoint span_digits (s : jsstring) : jsstring * jsstring :=
  match s with
  | c :: r =>
      if is_digit c then let (d, t) := span_digits r in (c :: d, t)
      else ([], s)
  | [] => ([], [])
  end.

(** At least one digit. *)
Definition digits1 (s : jsstring) : option (jsstring * jsstring) :=
  match span_digits s with
  | ([], _) => None
  | p => Some p
  end.

(** Integer part: [0], or a non-zero digit followed by digits. *)
Definition parse_int (s : jsstring) : option (jsstring * jsstring) :=
  match s with
  | c :: r =>
      if c =? 48 then Some ([c], r)
      else if is_digit c then let (d, t) := span_digits r in Some (c :: d, t)
      else None
  | [] => None
  end.

Definition parse_frac (s : jsstring) : option (jsstring * jsstring) :=
  match s with
  | c :: r =>
      if c =? DOT then
        match digits1 r with
        | Some (d, t) => Some (c :: d, t)
        | None => None
        end
      else Some ([], s)
  | [] => Some ([], s)
  end.

Definition parse_exp (s : jsstring) : option (jsstring * jsstring) :=
  match s with
  | c :: r =>
      if (c =? 101) || (c =? 69) then
        match r with
        | g :: r1 =>
            if (g =? 43) || (g =? 45) then
              match digits1 r1 with
              | Some (d, t) => Some (c :: g :: d, t)
              | None => None
              end
            else
              match digits1 r with
              | Some (d, t) => Some (c :: d, t)
              | None => None
              end
        | [] => None
        end
      else Some ([], s)
  | [] => Some ([], s)
  end.

(** A number: optional minus, integer part, optional fraction, optional
    exponent.  The result is the text read. *)
Definition parse_number (s : jsstring) : option (jsstring * jsstring) :=
  let (sign, s0) :=
    match s with
    | c :: r => if c =? 45 then ([c], r) else ([], s)
    | [] => ([], s)
    end in
  match parse_int s0 with
  | Some (i, s1) =>
      match parse_frac s1 with
      | Some (f, s2) =>
          match parse_exp s2 with
          | Some (e, s3) => Some (sign ++ i ++ f ++ e, s3)
          | None => None
          end
      | None => None
      end
  | None => None
  end.

(** [s] starts with the literal [w]: the rest of [s]. *)
Fixpoint strip_prefix (w s : jsstring) : option jsstring :=
  match w, s with
  | [], _ => Some s
  | a :: w', b :: s' => if a =? b then strip_prefix w' s' else None
  | _ :: _, [] => None
  end.

(** Defining a property: a key already present keeps its place and takes
    the new value. *)
Fixpoint obj_set (k : jsstring) (v : value) (o : list (jsstring * value))
  : list (jsstring * value) :=
  match o with
  | [] => [(k, v)]
  | (k', v') :: o' =>
      if jsstring_eqb k k' then (k, v) :: o' else (k', v') :: obj_set k v o'
  end.

Definition obj_of_members (ms : list (jsstring * value))
  : list (jsstring * value) :=
  fold_left (fun o kv => obj_set (fst kv) (snd kv) o) ms [].

Fixpoint parse_value (fuel : nat) (s : jsstring) {struct fuel} : presult value :=
  match fuel with
  | O => PFuel
  | S n =>
      match skip_ws s with
      | [] => PErr
      | c :: r =>
          if c =? LBRACE then
            match skip_ws r with
            | c' :: r' =>
                if c' =? RBRACE then POk (VObj []) r'
                else pbind (parse_members n r)
                       (fun ms t => POk (VObj (obj_of_members ms)) t)
            | [] => PErr
            end
          else if c =? LBRACKET then
            match skip_ws r with
            | c' :: r' =>
                if c' =? RBRACKET then POk (VArr []) r'
                else pbind (parse_elements n r) (fun vs t => POk (VArr vs) t)
            | [] => PErr
            end
          else if c =? QUOTE then
            pbind (of_option (parse_string r)) (fun v t => POk (VStr v) t)
          else
            match strip_prefix (lit "true") (c :: r) with
            | Some t => POk (VBool true) t
            | None =>
            match strip_prefix (lit "false") (c :: r) with
            | Some t => POk (VBool false) t
            | None =>
            match strip_prefix (lit "null") (c :: r) with
            | Some t => POk VNull t
            | None =>
                pbind (of_option (parse_number (c :: r)))
                  (fun v t => POk (VNum v) t)
            end end end
      end
  end

(** Elements of a non-empty array, up to and including the closing bracket. *)
with parse_elements (fuel : nat) (s : jsstring) {struct fuel}
  : presult (list value) :=
  match fuel with
  | O => PFuel
  | S n =>
      pbind (parse_value n s) (fun v t =>
        match skip_ws t with
        | c :: r =>
            if c =? COMMA then
              pbind (parse_elements n r) (fun vs u => POk (v :: vs) u)
            else if c =? RBRACKET then POk [v] r
            else PErr
        | [] => PErr
        end)
  end

(** Members of a non-empty object, up to and including the closing brace. *)
with parse_members (fuel : nat) (s : jsstring) {struct fuel}
  : presult (list (jsstring * value)) :=
  match fuel with
  | O => PFuel
  | S n =>
      match skip_ws s with
      | c :: r =>
          if c =? QUOTE then
            pbind (of_option (parse_string r)) (fun k t =>
              match skip_ws t with
              | c1 :: r1 =>
                  if c1 =? COLON then
                    pbind (parse_value n r1) (fun v u =>
                      match skip_ws u with
                      | c2 :: r2 =>
                          if c2 =? COMMA then
                            pbind (parse_members n r2)
                              (fun ms w => POk ((k, v) :: ms) w)
                          else if c2 =? RBRACE then POk [(k, v)] r2
                          else PErr
                      | [] => PErr
                      end)
                  else PErr
              | [] => PErr
              end)
          else PErr
      | [] => PErr
      end
  end.

(** Recursion bound for a text: every recursive call reads a character
    first (see [parse_value_bound]). *)
Definition fuel_for (s : jsstring) : nat := (2 * List.length s + 2)%nat.

(** [JSON.parse(text)]: [None] is a thrown SyntaxError. *)
Definition JSON_parse (text : jsstring) : option value :=
  match parse_value (fuel_for text) text with
  | POk v r => match skip_ws r with [] => Some v | _ => None end
  | _ => None
  end.

End Json.
Import Json.

(* ================================================================= *)
(** ** The application: store, table, form controller *)

Module App.

(** *** JavaScript arrays of records

    An array is a list of slots; [None] is a hole, which reads as
    [undefined].  A record is an object and therefore truthy. *)
Definition jsarray := list (option StudentRecord).

(** [a[i]]: [None] stands for [undefined]. *)
Definition array_get (a : jsarray) (i : Z) : option StudentRecord :=
  if (i <? 0)%Z then None
  else match nth_error a (Z.to_nat i) with
       | Some (Some r) => Some r
       | _ => None
       end.

(** [a[i] = v].  Inside the array the slot is overwritten; at or beyond
    the length the array grows, with holes up to [i].  A negative [i] names
    an ordinary property and leaves the elements as they are; the property
    itself is not represented, and no run assigns at a negative index (the
    edit marker is always a position of the sequence). *)
Definition array_set (a : jsarray) (i : Z) (v : StudentRecord) : jsarray :=
  if (i <? 0)%Z then a
  else
    let n := Z.to_nat i in
    if (n <? List.length a)%nat
    then firstn n a ++ Some v :: skipn (S n) a
    else a ++ repeat None (n - List.length a) ++ [Some v].

(** [a.push(v)] *)
Definition array_push (a : jsarray) (v : StudentRecord) : jsarray :=
  a ++ [Some v].

(** [a.splice(start, 1)]: a negative [start] counts from the end. *)
Definition array_splice1 (a : jsarray) (start : Z) : jsarray :=
  let len := Z.of_nat (List.length a) in
  let from :=
    Z.to_nat (if (start <? 0)%Z then Z.max (len + start) 0 else Z.min start len) in
  firstn from a ++ skipn (S from) a.

(** [a.some(f)]: holes are skipped. *)
Definition array_some (f : StudentRecord -> bool) (a : jsarray) : bool :=
  existsb (fun o => match o with Some r => f r | None => false end) a.

(** *** Escaping *)

(** [s.replaceAll(pat, rep)] for a one-character [pat] and a replacement
    without [$]. *)
Definition replaceAll (pat : N) (rep : jsstring) (s : jsstring) : jsstring :=
  flat_map (fun c => if c =? pat then rep else [c]) s.

Definition AMP : N := 38.
Definition LT : N := 60.
Definition GT : N := 62.
Definition APOS : N := 39.

Definition escapeHtml (str : jsstring) : jsstring :=
  replaceAll APOS (lit "&#039;")
    (replaceAll QUOTE (lit "&quot;")
       (replaceAll GT (lit "&gt;")
          (replaceAll LT (lit "&lt;")
             (replaceAll AMP (lit "&amp;") str)))).

(** *** The page *)

(** One table row: the position label, the four cells as interpolated into
    the row's markup, and the [data-index] of the two buttons. *)
Record row : Type := mkRow {
  label : nat;
  cell_name : jsstring;
  cell_id : jsstring;
  cell_email : jsstring;
  cell_contact : jsstring;
  edit_index : Z;
  delete_index : Z
}.

(** [localStorage]: the item stored under [STORAGE_KEY], if any. *)
Definition storage := option jsstring.

Record state : Type := mkState {
  students : jsarray;
  editIndex : option Z;                 (* [None] is [null] *)
  nameInput : jsstring;                 (* the inputs' values *)
  idInput : jsstring;
  emailInput : jsstring;
  contactInput : jsstring;
  submitBtn : string;                   (* text of the submit button *)
  formMsg : string;                     (* text of the message area *)
  tbody : list row;
  emptyState : bool;                    (* the empty hint is shown *)
  localStorage : storage
}.

Definition set_students (a : jsarray) (st : state) : state :=
  mkState a (editIndex st) (nameInput st) (idInput st) (emailInput st)
    (contactInput st) (submitBtn st) (formMsg st) (tbody st) (emptyState st)
    (localStorage st).

Definition set_localStorage (ls : storage) (st : state) : state :=
  mkState (students st) (editIndex st) (nameInput st) (idInput st)
    (emailInput st) (contactInput st) (submitBtn st) (formMsg st) (tbody st)
    (emptyState st) ls.

Definition set_nameInput (v : jsstring) (st : state) : state :=
  mkState (students st) (editIndex st) v (idInput st) (emailInput st)
    (contactInput st) (submitBtn st) (formMsg st) (tbody st) (emptyState st)
    (localStorage st).

Definition set_idInput (v : jsstring) (st : state) : state :=
  mkState (students st) (editIndex st) (nameInput st) v (emailInput st)
    (contactInput st) (submitBtn st) (formMsg st) (tbody st) (emptyState st)
    (localStorage st).

Definition set_emailInput (v : jsstring) (st : state) : state :=
  mkState (students st) (editIndex st) (nameInput st) (idInput st) v
    (contactInput st) (submitBtn st) (formMsg st) (tbody st) (emptyState st)
    (localStorage st).

Definition set_contactInput (v : jsstring) (st : state) : state :=
  mkState (students st) (editIndex st) (nameInput st) (idInput st)
    (emailInput st) v (submitBtn st) (formMsg st) (tbody st) (emptyState st)
    (localStorage st).

(** *** Local storage *)

(** [loadStudents()].  The result is whatever [JSON.parse] returns. *)
Definition loadStudents (ls : storage) : value :=
  match ls with
  | None => VArr []                                   (* raw is null *)
  | Some raw =>
      if falsy raw then VArr []
      else match JSON_parse raw with
           | Some v => v
           | None => VArr []                          (* catch *)
           end
  end.

(** [saveStudents()] *)
Definition saveStudents (st : state) : state :=
  set_localStorage (Some (stringify (students st))) st.

(** *** Table rendering *)

Definition render_row (idx : nat) (s : StudentRecord) : row :=
  mkRow (idx + 1) (escapeHtml (name s)) (escapeHtml (id s))
    (escapeHtml (email s)) (escapeHtml (contact s))
    (Z.of_nat idx) (Z.of_nat idx).

(** The [forEach] of [renderTable], from index [idx] on; holes are skipped. *)
Fixpoint render_rows (idx : nat) (a : jsarray) : list row :=
  match a with
  | [] => []
  | Some s :: a' => render_row idx s :: render_rows (S idx) a'
  | None :: a' => render_rows (S idx) a'
  end.

Definition renderTable (st : state) : state :=
  mkState (students st) (editIndex st) (nameInput st) (idInput st)
    (emailInput st) (contactInput st) (submitBtn st) (formMsg st)
    (render_rows 0 (students st))
    (Nat.eqb (List.length (students st)) 0)
    (localStorage st).

(** *** Form helpers *)

(** [announce(message)]: the message area shows [message]. *)
Definition announce (message : string) (st : state) : state :=
  mkState (students st) (editIndex st) (nameInput st) (idInput st)
    (emailInput st) (contactInput st) (submitBtn st) message (tbody st)
    (emptyState st) (localStorage st).

(** [resetForm()].  [form.reset()] restores the inputs' default values; they
    are empty (the form is cleared). *)
Definition resetForm (st : state) : state :=
  mkState (students st) None [] [] [] [] "Add Student"%string (formMsg st)
    (tbody st) (emptyState st) (localStorage st).

(** *** Validation *)

Inductive vresult : Type :=
| VOk : StudentRecord -> vresult          (* { ok: true, value } *)
| VFail : string -> vresult.              (* { ok: false, error } *)

Definition fail (msg : string) (st : state) : state * vresult :=
  (announce msg st, VFail msg).

Definition validateForm (st : state) : state * vresult :=
  let name := trim (nameInput st) in
  let id := trim (idInput st) in
  let email := trim (emailInput st) in
  let contact := trim (contactInput st) in
  if falsy name || falsy id || falsy email || falsy contact then
    fail "Please fill in all required fields." st
  else if negb (test name_re name) then
    fail "Name must contain letters and spaces only." st
  else if negb (test id_re id) then
    fail "Student ID must contain numbers only." st
  else if negb (test email_re email) then
    fail "Please enter a valid email address." st
  else if negb (test contact_re contact) then
    fail "Contact number must be at least 10 digits (numbers only)." st
  else (st, VOk (mkStudent name id email contact)).

(** *** Table actions *)

(** [input.value = text]: the inputs hold one line, so the line breaks
    (line feed, carriage return) of an assigned text are dropped. *)
Definition input_value (text : jsstring) : jsstring :=
  filter (fun c => negb ((c =? 10) || (c =? 13))) text.

Definition startEdit (index : Z) (st : state) : state :=
  match array_get (students st) index with
  | None => st
  | Some s =>
      announce "Editing record. Make changes and press Update."
        (mkState (students st) (Some index)
           (input_value (name s)) (input_value (id s))
           (input_value (email s)) (input_value (contact s))
           "Update Student"%string (formMsg st) (tbody st)
           (emptyState st) (localStorage st))
  end.

(** [deleteRow(index)]; [ok] is the answer given to [confirm]. *)
Definition deleteRow (index : Z) (ok : bool) (st : state) : state :=
  match array_get (students st) index with
  | None => st
  | Some s =>
      if negb ok then st
      else
        let st1 := set_students (array_splice1 (students st) index) st in
        announce "Record deleted." (resetForm (renderTable (saveStudents st1)))
  end.

(** *** Form submission *)

Definition submit (st0 : state) : state :=
  let (st, v) := validateForm st0 in
  match v with
  | VFail _ => st
  | VOk value =>
      let exists_ := array_some (fun s => record_eqb s value) (students st) in
      if exists_ && (match editIndex st with None => true | Some _ => false end)
      then announce "This exact record already exists." st
      else
        let st1 :=
          match editIndex st with
          | None =>
              announce "Student added."
                (set_students (array_push (students st) value) st)
          | Some i =>
              announce "Student updated."
                (set_students (array_set (students st) i value) st)
          end in
        resetForm (renderTable (saveStudents st1))
  end.

(** Pressing the reset control.  No listener is attached to [resetBtn]:
    all that happens is the form's own reset, which clears the four inputs
    (as [form.reset()] does in [resetForm]) and runs no script. *)
Definition pressReset (st : state) : state :=
  mkState (students st) (editIndex st) [] [] [] [] (submitBtn st) (formMsg st)
    (tbody st) (emptyState st) (localStorage st).

(** *** Events *)

(** What the user can do: type into an input (the value after the
    keystroke), submit the form, press a row's button and, for Delete,
    answer the confirmation. *)
Inductive event : Type :=
| TypeName : jsstring -> event
| TypeId : jsstring -> event
| TypeEmail : jsstring -> event
| TypeContact : jsstring -> event
| Submit : event
| ClickEdit : Z -> event
| ClickDelete : Z -> bool -> event.

Inductive action : Type := Edit | Delete.     (* [data-action] *)

(** [handleRowAction(e)] for a button with the given [data-action] and
    [data-index]. *)
Definition handleRowAction (a : action) (index : Z) (ok : bool) (st : state)
  : state :=
  match a with
  | Edit => startEdit index st
  | Delete => deleteRow index ok st
  end.

(** The [input] listeners strip what the field does not allow; the email
    input has no listener. *)
Definition step (e : event) (st : state) : state :=
  match e with
  | TypeName v => set_nameInput (filter name_class v) st
  | TypeId v => set_idInput (filter digit_class v) st
  | TypeEmail v => set_emailInput v st
  | TypeContact v => set_contactInput (filter digit_class v) st
  | Submit => submit st
  | ClickEdit i => handleRowAction Edit i false st
  | ClickDelete i ok => handleRowAction Delete i ok st
  end.

Definition run (es : list event) (st : state) : state :=
  fold_left (fun s e => step e s) es st.

(** *** Start-up *)

(** The record an element of the loaded array stands for: an object with
    the four string properties [name], [id], [email], [contact]. *)
Definition record_of (v : value) : option StudentRecord :=
  match v with
  | VObj [(k1, VStr n); (k2, VStr i); (k3, VStr e); (k4, VStr c)] =>
      if jsstring_eqb k1 (lit "name") && jsstring_eqb k2 (lit "id")
         && jsstring_eqb k3 (lit "email") && jsstring_eqb k4 (lit "contact")
      then Some (mkStudent n i e c) else None
  | _ => None
  end.

Fixpoint records_of_list (vs : list value) : option (list StudentRecord) :=
  match vs with
  | [] => Some []
  | v :: vs' =>
      match record_of v, records_of_list vs' with
      | Some r, Some rs => Some (r :: rs)
      | _, _ => None
      end
  end.

(** A loaded value read as a sequence of records; [None] when it is not an
    array of such objects. *)
Definition records_of (v : value) : option (list StudentRecord) :=
  match v with
  | VArr vs => records_of_list vs
  | _ => None
  end.

(** The page before any script has run. *)
Definition blank (ls : storage) : state :=
  mkState [] None [] [] [] [] "Add Student"%string ""%string [] false ls.

(** The [DOMContentLoaded] listener: [students = loadStudents()], then
    [renderTable()].  The typed store holds records as [validateForm] builds
    and [saveStudents] writes them, so the start-up is defined on the slots
    whose loaded value is an array of objects with exactly the members
    [name], [id], [email], [contact], in this order and all strings: a
    missing, empty or unparsable slot (the empty array) and every text in
    the layout [saveStudents] writes, whatever the four strings are.  On
    other loaded values it is left undefined: the listener either raises
    (a value that is no array) or starts on objects of another layout,
    which the typed store does not represent. *)
Definition boot (ls : storage) : option state :=
  match records_of (loadStudents ls) with
  | Some rs => Some (renderTable (set_students (map Some rs) (blank ls)))
  | None => None
  end.

End App.
Import App.

(* ================================================================= *)
(** ** The validator as the specification words it

    The shapes of the four fields, stated on the characters of the trimmed
    text, and the ordered checks of the specification.  [validate_spec] is
    compared with [validateForm] below. *)

Module Spec.

Definition letter (c : N) : Prop := 65 <= c <= 90 \/ 97 <= c <= 122.
Definition digit (c : N) : Prop := 48 <= c <= 57.

(** One or more letters or spaces, nothing else. *)
Definition NameShape (s : jsstring) : Prop :=
  s <> [] /\ Forall (fun c => letter c \/ c = SPACE) s.

(** One or more digits, nothing else. *)
Definition IdShape (s : jsstring) : Prop :=
  s <> [] /\ Forall digit s.

(** Ten or more digits, nothing else. *)
Definition ContactShape (s : jsstring) : Prop :=
  (10 <= List.length s)%nat /\ Forall digit s.

(** Neither white space nor [@]. *)
Definition plain (c : N) : Prop := is_space c = false /\ c <> AT.
(** Not white space. *)
Definition nonspace (c : N) : Prop := is_space c = false.

(** Characters, one [@], characters, a dot, characters; [last] says which
    characters may follow the dot. *)
Definition EmailShape (last : N -> Prop) (s : jsstring) : Prop :=
  exists a b c,
    s = a ++ AT :: b ++ DOT :: c
    /\ a <> [] /\ b <> [] /\ c <> []
    /\ Forall plain a /\ Forall plain b /\ Forall last c.

(** The shape with any non-white-space characters after the dot. *)
Definition EmailShape_nonspace : jsstring -> Prop := EmailShape nonspace.
(** The shape with neither white space nor [@] after the dot. *)
Definition EmailShape_plain : jsstring -> Prop := EmailShape plain.

Inductive reason : Type :=
| MissingField | InvalidName | InvalidId | InvalidEmail | InvalidContact.

(** The text [validateForm] announces for each rejection. *)
Definition message (r : reason) : string :=
  match r with
  | MissingField => "Please fill in all required fields."
  | InvalidName => "Name must contain letters and spaces only."
  | InvalidId => "Student ID must contain numbers only."
  | InvalidEmail => "Please enter a valid email address."
  | InvalidContact => "Contact number must be at least 10 digits (numbers only)."
  end.

(** The five checks in order on the trimmed fields [n], [i], [e], [c]:
    each rule applies only when all earlier checks passed. *)
Inductive validate_spec (Email : jsstring -> Prop) (n i e c : jsstring)
  : vresult -> Prop :=
| check_missing :
    n = [] \/ i = [] \/ e = [] \/ c = [] ->
    validate_spec Email n i e c (VFail (message MissingField))
| check_name :
    n <> [] -> i <> [] -> e <> [] -> c <> [] ->
    ~ NameShape n ->
    validate_spec Email n i e c (VFail (message InvalidName))
| check_id :
    n <> [] -> i <> [] -> e <> [] -> c <> [] ->
    NameShape n -> ~ IdShape i ->
    validate_spec Email n i e c (VFail (message InvalidId))
| check_email :
    n <> [] -> i <> [] -> e <> [] -> c <> [] ->
    NameShape n -> IdShape i -> ~ Email e ->
    validate_spec Email n i e c (VFail (message InvalidEmail))
| check_contact :
    n <> [] -> i <> [] -> e <> [] -> c <> [] ->
    NameShape n -> IdShape i -> Email e -> ~ ContactShape c ->
    validate_spec Email n i e c (VFail (message InvalidContact))
| check_pass :
    n <> [] -> i <> [] -> e <> [] -> c <> [] ->
    NameShape n -> IdShape i -> Email e -> ContactShape c ->
    validate_spec Email n i e c (VOk (mkStudent n i e c)).

(** [validateForm] on the form of [st] returns what the ordered checks
    prescribe for the trimmed inputs, and announces exactly a rejection. *)
Definition validate_meets (Email : jsstring -> Prop) (st : state) : Prop :=
  let (st', r) := validateForm st in
  validate_spec Email (trim (nameInput st)) (trim (idInput st))
    (trim (emailInput st)) (trim (contactInput st)) r
  /\ (forall r', validate_spec Email (trim (nameInput st)) (trim (idInput st))
        (trim (emailInput st)) (trim (contactInput st)) r' -> r' = r)
  /\ st' = match r with VOk _ => st | VFail m => announce m st end.

(** A form holding the given texts, on an empty store. *)
Definition form_of (n i e c : jsstring) : state :=
  mkState [] None n i e c "Add Student"%string ""%string [] true None.

End Spec.
Import Spec.

(** Example forms. *)
Definition form_two_ats : state :=
  form_of (lit "Ann Lee") (lit "123") (lit "a@b.c@d") (lit "1234567890").
Definition form_ann : state :=
  form_of (lit "  Ann Lee ") (lit "123") (lit "a@b.com") (lit "1234567890").

(* ================================================================= *)
(** ** Escaped text *)

(** What follows the ampersand in the five entities [escapeHtml] writes. *)
Definition entity_tails : list jsstring :=
  [lit "amp;"; lit "lt;"; lit "gt;"; lit "quot;"; lit "#039;"].

(** Text without [<], [>], double or single quote, in which every
    ampersand begins one of the five entities. *)
Definition inert (o : jsstring) : Prop :=
  (forall x, In x o -> x <> LT /\ x <> GT /\ x <> QUOTE /\ x <> APOS)
  /\ (forall pre post, o = pre ++ AMP :: post ->
        exists t post', In t entity_tails /\ post = t ++ post').

(** The replacement [escapeHtml] makes for one character. *)
Definition escape_unit (c : N) : jsstring :=
  if c =? AMP then lit "&amp;"
  else if c =? LT then lit "&lt;"
  else if c =? GT then lit "&gt;"
  else if c =? QUOTE then lit "&quot;"
  else if c =? APOS then lit "&#039;"
  else [c].

(* ================================================================= *)
(** ** Records as parsed values *)

(** The value [JSON.parse] builds for a stored record. *)
Definition value_of_record (r : StudentRecord) : value :=
  VObj [(lit "name", VStr (name r)); (lit "id", VStr (id r));
        (lit "email", VStr (email r)); (lit "contact", VStr (contact r))].

(** A hole was written [null]. *)
Definition value_of_element (o : option StudentRecord) : value :=
  match o with
  | Some r => value_of_record r
  | None => VNull
  end.

(* ================================================================= *)
(** ** Loading, as the specification words it *)

(** The text serialises a sequence of records. *)
Definition serializes_records (raw : jsstring) : Prop :=
  exists v rs, JSON_parse raw = Some v /\ records_of v = Some rs.

(** [loadStudents] returns a sequence of records, and the empty one when
    the slot is missing or does not serialise a sequence of records. *)
Definition load_as_stated (ls : storage) : Prop :=
  (exists rs, records_of (loadStudents ls) = Some rs)
  /\ (ls = None \/ (exists raw, ls = Some raw /\ ~ serializes_records raw) ->
      loadStudents ls = VArr []).

(* ================================================================= *)
(** ** Words of the specification about the controller *)

(** Some stored record has the candidate's four fields. *)
Definition duplicate_of (v : StudentRecord) (a : jsarray) : Prop :=
  exists s, In (Some s) a
    /\ name s = name v /\ id s = id v
    /\ email s = email v /\ contact s = contact v.



(** The edit marker is [null] or the position of a stored record. *)
Definition edit_marker_ok (st : state) : Prop :=
  match editIndex st with
  | None => True
  | Some i =>
      (0 <= i < Z.of_nat (List.length (students st)))%Z
      /\ exists s, array_get (students st) i = Some s
  end.

(** The store holds the records [rs], all of which satisfy the four field
    constraints; the table shows them and the storage slot reads back as
    them. *)
Definition holds_valid (st : state) (rs : list StudentRecord) : Prop :=
  students st = map Some rs
  /\ tbody st = render_rows 0 (map Some rs)
  /\ records_of (loadStudents (localStorage st)) = Some rs
  /\ Forall (fun r => valid_record r = true) rs.

(** After the events [es] on a page started on the storage [ls], what is
    stored, shown and persisted is a sequence of valid records. *)
Definition valid_after (ls : storage) (es : list event) : Prop :=
  forall st0, boot ls = Some st0 -> exists rs, holds_valid (run es st0) rs.

(** Example records and pages. *)
Definition ann : StudentRecord :=
  mkStudent (lit "Ann Lee") (lit "123") (lit "a@b.com") (lit "1234567890").
Definition bob : StudentRecord :=
  mkStudent (lit "Bob") (lit "7") (lit "bob@x.org") (lit "5550001111").
(** A record no submission could have produced. *)
Definition odd : StudentRecord :=
  mkStudent (lit "<b>") (lit "x") (lit "e") (lit "1").

(** A page on the store [a] with the edit marker [ei] and the fields of
    [r] typed into the form. *)
Definition page (a : jsarray) (ei : option Z) (r : StudentRecord) : state :=
  mkState a ei (name r) (id r) (email r) (contact r)
    (match ei with None => "Add Student" | Some _ => "Update Student" end)%string
    ""%string (render_rows 0 a) (Nat.eqb (List.length a) 0)
    (Some (stringify a)).

(** With bound [n], the parsing function [p] leaves less text than it was
    given. *)
Definition consumes {A : Type} (p : nat -> jsstring -> presult A) (n : nat) : Prop :=
  forall s a r, p n s = POk a r -> (List.length r < List.length s)%nat.

(* ================================================================= *)
(** ** Further words about the page *)

(** Only white space (or nothing at all). *)
Definition all_space (s : jsstring) : Prop := forallb is_space s = true.

(** One of the five characters [escapeHtml] replaces. *)
Definition special (c : N) : Prop :=
  c = AMP \/ c = LT \/ c = GT \/ c = QUOTE \/ c = APOS.

(** The state every mutation ends in: the store is persisted and drawn,
    the form is cleared and back in adding mode. *)
Definition committed (st : state) : Prop :=
  localStorage st = Some (stringify (students st))
  /\ tbody st = render_rows 0 (students st)
  /\ emptyState st = Nat.eqb (List.length (students st)) 0
  /\ editIndex st = None
  /\ nameInput st = [] /\ idInput st = []
  /\ emailInput st = [] /\ contactInput st = []
  /\ submitBtn st = "Add Student"%string.

(** Store, table and storage agree on the records [rs]. *)
Definition in_sync (st : state) (rs : list StudentRecord) : Prop :=
  students st = map Some rs
  /\ tbody st = render_rows 0 (map Some rs)
  /\ emptyState st = Nat.eqb (List.length rs) 0
  /\ records_of (loadStudents (localStorage st)) = Some rs.

(** The submit button names the mode the controller is in. *)
Definition label_ok (st : state) : Prop :=
  submitBtn st
  = match editIndex st with
    | None => "Add Student"%string
    | Some _ => "Update Student"%string
    end.

(** The form holds the four fields of [r]. *)
Definition form_holds (st : state) (r : StudentRecord) : Prop :=
  nameInput st = name r /\ idInput st = id r
  /\ emailInput st = email r /\ contactInput st = contact r.

(** The text is empty or begins with a character that is not white space. *)
Definition starts_clean (s : jsstring) : Prop :=
  match s with [] => True | c :: _ => is_space c = false end.

(* ================================================================= *)
(** ** Reading escaped text back *)

(** The character reference that begins right after an ampersand, among
    the five [escapeHtml] writes: the character it stands for and the
    number of characters it takes. *)
Definition entity_at (r : jsstring) : option (N * nat) :=
  match strip_prefix (lit "amp;") r with
  | Some _ => Some (AMP, 4%nat)
  | None =>
  match strip_prefix (lit "lt;") r with
  | Some _ => Some (LT, 3%nat)
  | None =>
  match strip_prefix (lit "gt;") r with
  | Some _ => Some (GT, 3%nat)
  | None =>
  match strip_prefix (lit "quot;") r with
  | Some _ => Some (QUOTE, 5%nat)
  | None =>
  match strip_prefix (lit "#039;") r with
  | Some _ => Some (APOS, 5%nat)
  | None => None
  end end end end end.

(** The text a page shows for markup text that holds no tag: each of the
    five character references stands for its character, every other
    character for itself.  [skip] counts the characters of a reference
    still to pass over. *)
Fixpoint shown_text (skip : nat) (s : jsstring) : jsstring :=
  match s with
  | [] => []
  | c :: r =>
      match skip with
      | S k => shown_text k r
      | O =>
          if c =? AMP then
            match entity_at r with
            | Some (ch, n) => ch :: shown_text n r
            | None => c :: shown_text 0 r
            end
          else c :: shown_text 0 r
      end
  end.

(* ================================================================= *)
(** * Properties *)

Unset Implicit Arguments.

(* ----------------------------------------------------------------- *)
(** ** Patterns: [test] decides the language *)

Section RegexFacts.

Lemma nullable_Matches r : nullable r = true <-> Matches r [].
Proof.
  induction r; simpl.
  - split; [discriminate | intros H; inversion H].
  - split; [constructor | reflexivity].
  - split; [discriminate | intros H; inversion H].
  - rewrite andb_true_iff, IHr1, IHr2. split.
    + intros [Ha Hb]. change (@nil N) with (@nil N ++ []). now constructor.
    + intros H. inversion H; subst.
      match goal with E : _ ++ _ = [] |- _ => apply app_eq_nil in E as [-> ->] end.
      now split.
  - rewrite orb_true_iff, IHr1, IHr2. split.
    + intros [Ha|Hb]; [now apply MAltL | now apply MAltR].
    + intros H. inversion H; subst; tauto.
  - split; [constructor | reflexivity].
Qed.

Lemma Matches_Star_cons a c s :
  Matches (Star a) (c :: s) ->
  exists s1 s2, s = s1 ++ s2 /\ Matches a (c :: s1) /\ Matches (Star a) s2.
Proof.
  intros H. remember (Star a) as r eqn:Hr. remember (c :: s) as w eqn:Hw.
  revert c s Hw.
  induction H; intros c' s' Hw; try discriminate.
  injection Hr as ->.
  destruct s as [|x s0].
  - simpl in Hw. subst t. apply IHMatches2; reflexivity.
  - simpl in Hw. injection Hw as -> <-.
    exists s0, t. auto.
Qed.

Lemma deriv_Matches r : forall c s, Matches (deriv c r) s <-> Matches r (c :: s).
Proof.
  induction r; intros c s; simpl.
  - split; intros H; inversion H.
  - split; intros H; inversion H.
  - destruct (b c) eqn:Hb; split; intros H; inversion H; subst.
    + now constructor.
    + constructor.
    + congruence.
  - split.
    + intros H.
      assert (Hcat : forall t, Matches (Cat (deriv c r1) r2) t -> Matches (Cat r1 r2) (c :: t)).
      { intros t Ht. inversion Ht; subst.
        change (c :: s0 ++ t0) with ((c :: s0) ++ t0).
        constructor; [now apply IHr1 | assumption]. }
      destruct (nullable r1) eqn:Hn.
      * inversion H; subst; [now apply Hcat|].
        change (c :: s) with ([] ++ c :: s).
        constructor; [now apply nullable_Matches | now apply IHr2].
      * now apply Hcat.
    + intros H.
      inversion H as [| |a b u t Hu Ht| | | |]; subst.
      destruct u as [|x u'];
        match goal with E : _ ++ _ = _ :: _ |- _ => simpl in E end.
      * subst t.
        assert (Hn : nullable r1 = true) by now apply nullable_Matches.
        rewrite Hn. apply MAltR. now apply IHr2.
      * match goal with E : _ :: _ = _ :: _ |- _ => injection E as -> <- end.
        assert (Hc : Matches (Cat (deriv c r1) r2) (u' ++ t))
          by (constructor; [now apply IHr1 | assumption]).
        destruct (nullable r1); [now apply MAltL | assumption].
  - split; intros H; inversion H; subst.
    + apply MAltL. now apply IHr1.
    + apply MAltR. now apply IHr2.
    + apply MAltL. now apply IHr1.
    + apply MAltR. now apply IHr2.
  - split; intros H.
    + inversion H; subst.
      change (c :: s0 ++ t) with ((c :: s0) ++ t).
      constructor; [now apply IHr | assumption].
    + apply Matches_Star_cons in H as (s1 & s2 & -> & H1 & H2).
      constructor; [now apply IHr | assumption].
Qed.

Lemma test_Matches s : forall r, test r s = true <-> Matches r s.
Proof.
  induction s as [|c s IH]; intros r; simpl.
  - apply nullable_Matches.
  - rewrite IH. apply deriv_Matches.
Qed.

End RegexFacts.

(* ----------------------------------------------------------------- *)
(** ** The four patterns, character by character *)

Section PatternShapes.

Lemma Matches_Cat_iff a b s :
  Matches (Cat a b) s <->
  exists s1 s2, s = s1 ++ s2 /\ Matches a s1 /\ Matches b s2.
Proof.
  split.
  - intros H. inversion H; subst. eauto.
  - intros (s1 & s2 & -> & H1 & H2). now constructor.
Qed.

Lemma Matches_Cls_iff p s :
  Matches (Cls p) s <-> exists c, s = [c] /\ p c = true.
Proof.
  split.
  - intros H. inversion H; subst. eauto.
  - intros (c & -> & Hc). now constructor.
Qed.

Lemma Matches_Chr_iff c s : Matches (Chr c) s <-> s = [c].
Proof.
  unfold Chr. rewrite Matches_Cls_iff. split.
  - intros (x & -> & Hx). apply N.eqb_eq in Hx. now subst.
  - intros ->. exists c. split; [reflexivity | apply N.eqb_refl].
Qed.

Lemma Matches_Star_Cls p s :
  Matches (Star (Cls p)) s <-> forallb p s = true.
Proof.
  split.
  - intros H. remember (Star (Cls p)) as r eqn:Hr.
    induction H; try discriminate; [reflexivity|].
    injection Hr as ->. inversion H; subst. simpl.
    apply andb_true_iff. split; [assumption | now apply IHMatches2].
  - induction s as [|c s IH]; simpl; intros H; [constructor|].
    apply andb_true_iff in H as [Hc Hs].
    change (c :: s) with ([c] ++ s).
    constructor; [now constructor | now apply IH].
Qed.

Lemma Matches_Plus_Cls p s :
  Matches (Plus (Cls p)) s <-> s <> [] /\ forallb p s = true.
Proof.
  unfold Plus. rewrite Matches_Cat_iff. split.
  - intros (s1 & s2 & -> & H1 & H2).
    apply Matches_Cls_iff in H1 as (c & -> & Hc).
    apply Matches_Star_Cls in H2. simpl. rewrite Hc, H2.
    split; [discriminate | reflexivity].
  - intros [Hne H]. destruct s as [|c s]; [congruence|].
    simpl in H. apply andb_true_iff in H as [Hc Hs].
    exists [c], s. split; [reflexivity|].
    split; [now constructor | now apply Matches_Star_Cls].
Qed.

Lemma Matches_AtLeast_Cls p n : forall s,
  Matches (AtLeast n (Cls p)) s <->
  (n <= List.length s)%nat /\ forallb p s = true.
Proof.
  induction n as [|n IH]; intros s; simpl.
  - rewrite Matches_Star_Cls. split; [intros H; split; [lia | assumption] | tauto].
  - rewrite Matches_Cat_iff. split.
    + intros (s1 & s2 & -> & H1 & H2).
      apply Matches_Cls_iff in H1 as (c & -> & Hc).
      apply IH in H2 as [Hl Hs]. simpl. rewrite Hc, Hs. split; [lia | reflexivity].
    + intros [Hl H]. destruct s as [|c s]; [simpl in Hl; lia|].
      simpl in H, Hl. apply andb_true_iff in H as [Hc Hs].
      exists [c], s. split; [reflexivity|].
      split; [now constructor | apply IH; split; [lia | assumption]].
Qed.

Lemma name_class_spec c : name_class c = true <-> letter c \/ c = SPACE.
Proof.
  unfold name_class, is_upper, is_lower, letter, SPACE.
  rewrite !orb_true_iff, !andb_true_iff, !N.leb_le, N.eqb_eq. tauto.
Qed.

Lemma digit_class_spec c : digit_class c = true <-> digit c.
Proof.
  unfold digit_class, is_digit, digit.
  rewrite andb_true_iff, !N.leb_le. tauto.
Qed.

Lemma email_class_spec c : email_class c = true <-> plain c.
Proof.
  unfold email_class, plain.
  rewrite negb_true_iff, orb_false_iff, N.eqb_neq. tauto.
Qed.

Lemma forallb_Forall_iff (p : N -> bool) (P : N -> Prop) s :
  (forall c, p c = true <-> P c) -> forallb p s = true <-> Forall P s.
Proof.
  intros Hp. rewrite forallb_forall, Forall_forall.
  split; intros H x Hx; apply Hp; auto.
Qed.

Lemma name_re_shape s : test name_re s = true <-> NameShape s.
Proof.
  unfold name_re, NameShape.
  rewrite test_Matches, Matches_Plus_Cls, (@forallb_Forall_iff _ _ _ name_class_spec).
  tauto.
Qed.

Lemma id_re_shape s : test id_re s = true <-> IdShape s.
Proof.
  unfold id_re, IdShape.
  rewrite test_Matches, Matches_Plus_Cls, (@forallb_Forall_iff _ _ _ digit_class_spec).
  tauto.
Qed.

Lemma contact_re_shape s : test contact_re s = true <-> ContactShape s.
Proof.
  unfold contact_re, ContactShape.
  rewrite test_Matches, Matches_AtLeast_Cls, (@forallb_Forall_iff _ _ _ digit_class_spec).
  tauto.
Qed.

Lemma email_re_shape s : test email_re s = true <-> EmailShape_plain s.
Proof.
  unfold email_re, EmailShape_plain, EmailShape. rewrite test_Matches.
  split.
  - intros H.
    apply Matches_Cat_iff in H as (a & t1 & -> & Ha & H).
    apply Matches_Cat_iff in H as (x & t2 & -> & Hx & H).
    apply Matches_Cat_iff in H as (b & t3 & -> & Hb & H).
    apply Matches_Cat_iff in H as (y & c & -> & Hy & Hc).
    apply Matches_Chr_iff in Hx as ->. apply Matches_Chr_iff in Hy as ->.
    apply Matches_Plus_Cls in Ha as [Ha1 Ha2].
    apply Matches_Plus_Cls in Hb as [Hb1 Hb2].
    apply Matches_Plus_Cls in Hc as [Hc1 Hc2].
    apply (@forallb_Forall_iff _ _ _ email_class_spec) in Ha2.
    apply (@forallb_Forall_iff _ _ _ email_class_spec) in Hb2.
    apply (@forallb_Forall_iff _ _ _ email_class_spec) in Hc2.
    exists a, b, c. auto 10.
  - intros (a & b & c & -> & Ha & Hb & Hc & Fa & Fb & Fc).
    apply (@forallb_Forall_iff _ _ _ email_class_spec) in Fa.
    apply (@forallb_Forall_iff _ _ _ email_class_spec) in Fb.
    apply (@forallb_Forall_iff _ _ _ email_class_spec) in Fc.
    apply Matches_Cat_iff. exists a, (AT :: b ++ DOT :: c).
    split; [reflexivity|]. split; [now apply Matches_Plus_Cls|].
    apply Matches_Cat_iff. exists [AT], (b ++ DOT :: c).
    split; [reflexivity|]. split; [now apply Matches_Chr_iff|].
    apply Matches_Cat_iff. exists b, (DOT :: c).
    split; [reflexivity|]. split; [now apply Matches_Plus_Cls|].
    apply Matches_Cat_iff. exists [DOT], c.
    split; [reflexivity|]. split; [now apply Matches_Chr_iff|].
    now apply Matches_Plus_Cls.
Qed.

End PatternShapes.

(* ----------------------------------------------------------------- *)
(** ** The validator *)

Section Validator.

Lemma falsy_nil (s : jsstring) : falsy s = true <-> s = [].
Proof. destruct s; simpl; split; congruence. Qed.

Lemma falsy_not_nil (s : jsstring) : falsy s = false <-> s <> [].
Proof. destruct s; simpl; split; congruence. Qed.

Lemma test_false_iff r s (P : Prop) :
  (test r s = true <-> P) -> negb (test r s) = true <-> ~ P.
Proof.
  intros H. rewrite negb_true_iff. destruct (test r s); split; intros H';
    try discriminate; try reflexivity.
  - exfalso. apply H'. now apply H.
  - intros HP. apply H in HP. discriminate.
Qed.

Lemma test_true_iff r s (P : Prop) :
  (test r s = true <-> P) -> negb (test r s) = false <-> P.
Proof. intros H. rewrite negb_false_iff. exact H. Qed.

(** C1, as the code has it: for every form, [validateForm] trims the four
    inputs and applies, in this order and stopping at the first failure, the
    checks (1) a field is empty, (2) the name is not one or more letters or
    spaces, (3) the id is not one or more digits, (4) the email is not
    characters other than white space and [@], one [@], such characters, a
    dot, and again characters other than white space and [@], (5) the
    contact is not ten or more digits; it announces and returns the failed
    check's message, and on success returns exactly the four trimmed texts
    and leaves the page as it is. *)
Theorem validateForm_ordered_checks :
  forall st : state, validate_meets EmailShape_plain st.
Proof.
  intros st. unfold validate_meets, validateForm, fail.
  set (n := trim (nameInput st)). set (i := trim (idInput st)).
  set (e := trim (emailInput st)). set (c := trim (contactInput st)).
  destruct (falsy n || falsy i || falsy e || falsy c) eqn:E0.
  { rewrite !orb_true_iff, !falsy_nil in E0.
    split; [apply check_missing; tauto|].
    split; [|reflexivity].
    intros r' H'; inversion H'; subst; try reflexivity; tauto. }
  rewrite !orb_false_iff, !falsy_not_nil in E0.
  destruct E0 as [[[Hn Hi] He] Hc].
  destruct (negb (test name_re n)) eqn:E1.
  { apply (test_false_iff _ _ _ (name_re_shape n)) in E1.
    split; [now apply check_name|]. split; [|reflexivity].
    intros r' H'; inversion H'; subst; try reflexivity; tauto. }
  apply (test_true_iff _ _ _ (name_re_shape n)) in E1.
  destruct (negb (test id_re i)) eqn:E2.
  { apply (test_false_iff _ _ _ (id_re_shape i)) in E2.
    split; [now apply check_id|]. split; [|reflexivity].
    intros r' H'; inversion H'; subst; try reflexivity; tauto. }
  apply (test_true_iff _ _ _ (id_re_shape i)) in E2.
  destruct (negb (test email_re e)) eqn:E3.
  { apply (test_false_iff _ _ _ (email_re_shape e)) in E3.
    split; [now apply check_email|]. split; [|reflexivity].
    intros r' H'; inversion H'; subst; try reflexivity; tauto. }
  apply (test_true_iff _ _ _ (email_re_shape e)) in E3.
  destruct (negb (test contact_re c)) eqn:E4.
  { apply (test_false_iff _ _ _ (contact_re_shape c)) in E4.
    split; [now apply check_contact|]. split; [|reflexivity].
    intros r' H'; inversion H'; subst; try reflexivity; tauto. }
  apply (test_true_iff _ _ _ (contact_re_shape c)) in E4.
  split; [now apply check_pass|]. split; [|reflexivity].
  intros r' H'; inversion H'; subst; try reflexivity; tauto.
Qed.

(** C1, as stated, fails: the email [a@b.c@d] has the stated shape (after
    the dot come the non-white-space characters [c@d]) and the other fields
    are valid, yet [validateForm] rejects the form as an invalid email. *)
Lemma validateForm_rejects_at_after_dot :
  ~ validate_meets EmailShape_nonspace form_two_ats.
Proof.
  unfold validate_meets.
  assert (E : validateForm form_two_ats
              = (announce (message InvalidEmail) form_two_ats,
                 VFail (message InvalidEmail))) by reflexivity.
  rewrite E. intros [H _].
  inversion H as [| | |Hn Hi He Hc HN HI HE| |]; try discriminate.
  apply HE. exists (lit "a"), (lit "b"), (lit "c@d").
  split; [reflexivity|].
  repeat split; try discriminate;
    repeat constructor; try reflexivity; discriminate.
Qed.

Example contact_nine_digits :
  snd (validateForm (form_of (lit "Ann") (lit "1") (lit "a@b.co") (lit "123456789")))
  = VFail (message InvalidContact).
Proof. reflexivity. Qed.

Example contact_ten_digits :
  snd (validateForm (form_of (lit "Ann") (lit "1") (lit "a@b.co") (lit "1234567890")))
  = VOk (mkStudent (lit "Ann") (lit "1") (lit "a@b.co") (lit "1234567890")).
Proof. reflexivity. Qed.

Example contact_fifteen_digits :
  snd (validateForm (form_of (lit "Ann") (lit "1") (lit "a@b.co") (lit "123456789012345")))
  = VOk (mkStudent (lit "Ann") (lit "1") (lit "a@b.co") (lit "123456789012345")).
Proof. reflexivity. Qed.

Example validateForm_trims :
  snd (validateForm form_ann)
  = VOk (mkStudent (lit "Ann Lee") (lit "123") (lit "a@b.com") (lit "1234567890")).
Proof. reflexivity. Qed.

End Validator.

(* ----------------------------------------------------------------- *)
(** ** Escaping *)

Section Escaping.

Lemma replaceAll_flat_map pat rep (f : N -> jsstring) s :
  replaceAll pat rep (flat_map f s)
  = flat_map (fun c => replaceAll pat rep (f c)) s.
Proof.
  unfold replaceAll. induction s as [|c s IH]; simpl; [reflexivity|].
  now rewrite flat_map_app, IH.
Qed.

Lemma replaceAll_as_flat_map pat rep s :
  replaceAll pat rep s = flat_map (fun c => replaceAll pat rep [c]) s.
Proof.
  unfold replaceAll. apply flat_map_ext. intros c. simpl.
  now rewrite app_nil_r.
Qed.

(** The five replacements, done one after the other, never touch what an
    earlier one wrote. *)
Lemma escapeHtml_flat_map s : escapeHtml s = flat_map escape_unit s.
Proof.
  unfold escapeHtml.
  rewrite (replaceAll_as_flat_map AMP), !replaceAll_flat_map.
  apply flat_map_ext. intros c. unfold escape_unit.
  destruct (c =? AMP) eqn:E1.
  { apply N.eqb_eq in E1. subst c. reflexivity. }
  destruct (c =? LT) eqn:E2.
  { apply N.eqb_eq in E2. subst c. reflexivity. }
  destruct (c =? GT) eqn:E3.
  { apply N.eqb_eq in E3. subst c. reflexivity. }
  destruct (c =? QUOTE) eqn:E4.
  { apply N.eqb_eq in E4. subst c. reflexivity. }
  destruct (c =? APOS) eqn:E5.
  { apply N.eqb_eq in E5. subst c. reflexivity. }
  unfold replaceAll. simpl.
  rewrite E1. simpl. rewrite E2. simpl. rewrite E3. simpl. rewrite E4. simpl.
  rewrite E5. reflexivity.
Qed.

(** One character becomes itself, when it is not special, or an ampersand
    followed by an entity tail. *)
Lemma escape_unit_cases c :
  (escape_unit c = [c]
   /\ c <> AMP /\ c <> LT /\ c <> GT /\ c <> QUOTE /\ c <> APOS)
  \/ (exists t, In t entity_tails /\ escape_unit c = AMP :: t).
Proof.
  unfold escape_unit.
  destruct (c =? AMP) eqn:E1.
  { right. exists (lit "amp;"). split; [simpl; tauto | reflexivity]. }
  destruct (c =? LT) eqn:E2.
  { right. exists (lit "lt;"). split; [simpl; tauto | reflexivity]. }
  destruct (c =? GT) eqn:E3.
  { right. exists (lit "gt;"). split; [simpl; tauto | reflexivity]. }
  destruct (c =? QUOTE) eqn:E4.
  { right. exists (lit "quot;"). split; [simpl; tauto | reflexivity]. }
  destruct (c =? APOS) eqn:E5.
  { right. exists (lit "#039;"). split; [simpl; tauto | reflexivity]. }
  left. apply N.eqb_neq in E1, E2, E3, E4, E5. tauto.
Qed.

Lemma entity_tail_plain t x :
  In t entity_tails -> In x t ->
  x <> AMP /\ x <> LT /\ x <> GT /\ x <> QUOTE /\ x <> APOS.
Proof.
  unfold entity_tails. simpl.
  intros Ht Hx.
  repeat (destruct Ht as [<-|Ht]; [simpl in Hx;
    repeat (destruct Hx as [<-|Hx]; [repeat split; discriminate|]);
    contradiction|]).
  contradiction.
Qed.

(** An ampersand found after a prefix without ampersands lies beyond it. *)
Lemma amp_beyond t : forall rest pre post,
  (forall x, In x t -> x <> AMP) ->
  t ++ rest = pre ++ AMP :: post ->
  exists pre', rest = pre' ++ AMP :: post.
Proof.
  induction t as [|y t IH]; intros rest pre post Ht E; simpl in E.
  - eauto.
  - destruct pre as [|p pre]; simpl in E; injection E as Ey E.
    + exfalso. apply (Ht y); [now left | assumption].
    + apply (IH rest pre post); [|assumption].
      intros x Hx. apply Ht. now right.
Qed.

Lemma flat_map_escape_amp s : forall pre post,
  flat_map escape_unit s = pre ++ AMP :: post ->
  exists t post', In t entity_tails /\ post = t ++ post'.
Proof.
  induction s as [|c s IH]; intros pre post E; simpl in E.
  - destruct pre; discriminate.
  - destruct (escape_unit_cases c) as [(Ec & Hc & _) | (t & Ht & Ec)];
      rewrite Ec in E; simpl in E.
    + destruct pre as [|p pre]; simpl in E; injection E as Ey E.
      * congruence.
      * eauto.
    + destruct pre as [|p pre]; simpl in E.
      * injection E as E.
        exists t, (flat_map escape_unit s). split; [assumption | now symmetry].
      * injection E as Ey E.
        apply amp_beyond in E as [pre' E]; [eauto|].
        intros x Hx. now apply (entity_tail_plain t x Ht).
Qed.

Lemma flat_map_escape_plain s x :
  In x (flat_map escape_unit s) ->
  x <> LT /\ x <> GT /\ x <> QUOTE /\ x <> APOS.
Proof.
  rewrite in_flat_map. intros (c & _ & Hx).
  destruct (escape_unit_cases c) as [(Ec & Hc) | (t & Ht & Ec)];
    rewrite Ec in Hx; simpl in Hx.
  - destruct Hx as [<-|[]]. tauto.
  - destruct Hx as [<-|Hx].
    + repeat split; discriminate.
    + pose proof (entity_tail_plain t x Ht Hx). tauto.
Qed.

Lemma escapeHtml_inert s : inert (escapeHtml s).
Proof.
  rewrite escapeHtml_flat_map. split.
  - apply flat_map_escape_plain.
  - apply flat_map_escape_amp.
Qed.

Lemma escape_unit_plain c : ~ special c -> escape_unit c = [c].
Proof.
  unfold special, escape_unit. intros H.
  assert (E1 : (c =? AMP) = false) by (apply N.eqb_neq; tauto).
  assert (E2 : (c =? LT) = false) by (apply N.eqb_neq; tauto).
  assert (E3 : (c =? GT) = false) by (apply N.eqb_neq; tauto).
  assert (E4 : (c =? QUOTE) = false) by (apply N.eqb_neq; tauto).
  assert (E5 : (c =? APOS) = false) by (apply N.eqb_neq; tauto).
  now rewrite E1, E2, E3, E4, E5.
Qed.

(** The replacement for each character, case by case. *)
Lemma escape_unit_table c :
  (~ special c /\ escape_unit c = [c])
  \/ (c = AMP /\ escape_unit c = lit "&amp;")
  \/ (c = LT /\ escape_unit c = lit "&lt;")
  \/ (c = GT /\ escape_unit c = lit "&gt;")
  \/ (c = QUOTE /\ escape_unit c = AMP :: lit "quot;")
  \/ (c = APOS /\ escape_unit c = lit "&#039;").
Proof.
  destruct (N.eq_dec c AMP) as [->|H1]; [right; left; split; reflexivity|].
  destruct (N.eq_dec c LT) as [->|H2]; [right; right; left; split; reflexivity|].
  destruct (N.eq_dec c GT) as [->|H3];
    [right; right; right; left; split; reflexivity|].
  destruct (N.eq_dec c QUOTE) as [->|H4];
    [right; right; right; right; left; split; reflexivity|].
  destruct (N.eq_dec c APOS) as [->|H5];
    [right; right; right; right; right; split; reflexivity|].
  left. assert (H : ~ special c) by (unfold special; tauto).
  split; [exact H | now apply escape_unit_plain].
Qed.

Lemma shown_text_skip t : forall rest,
  shown_text (List.length t) (t ++ rest) = shown_text 0 rest.
Proof.
  induction t as [|c t IH]; intros rest; [reflexivity|].
  cbn [List.length app shown_text]. apply IH.
Qed.

Lemma shown_text_unit c rest :
  shown_text 0 (escape_unit c ++ rest) = c :: shown_text 0 rest.
Proof.
  destruct (escape_unit_table c) as [[H E]|[[-> E]|[[-> E]|[[-> E]|[[-> E]|[-> E]]]]]];
    rewrite E.
  - cbn [app shown_text].
    assert (Ec : (c =? AMP) = false) by (apply N.eqb_neq; unfold special in H; tauto).
    now rewrite Ec.
  - reflexivity.
  - reflexivity.
  - reflexivity.
  - reflexivity.
  - reflexivity.
Qed.

Lemma shown_text_escape s : shown_text 0 (flat_map escape_unit s) = s.
Proof.
  induction s as [|c s IH]; [reflexivity|].
  cbn [flat_map]. now rewrite shown_text_unit, IH.
Qed.

Lemma render_rows_In a : forall idx r,
  In r (render_rows idx a) ->
  exists k s, nth_error a k = Some (Some s) /\ r = render_row (idx + k) s.
Proof.
  induction a as [|o a IH]; intros idx r H; simpl in H; [contradiction|].
  destruct o as [s|].
  - destruct H as [<-|H].
    + exists 0%nat, s. split; [reflexivity | now rewrite Nat.add_0_r].
    + apply IH in H as (k & s' & Hk & ->).
      exists (S k), s'. split; [assumption | f_equal; lia].
  - apply IH in H as (k & s' & Hk & ->).
    exists (S k), s'. split; [assumption | f_equal; lia].
Qed.

(** C9: every row [renderTable] draws shows a record of the store through
    [escapeHtml], field by field.  For every text, [escapeHtml] replaces
    each character by its image ([&amp;] [&lt;] [&gt;] [&quot;] [&#039;]
    for the five special characters, the character itself otherwise) and
    nothing else; its output has no [<], [>], double quote or single quote,
    each of its ampersands begins one of the five entities, and read back
    as text it is the value itself. *)
Theorem rendered_cells_are_escaped :
  (forall (st : state) (r : row),
      In r (tbody (renderTable st)) ->
      exists k s,
        nth_error (students st) k = Some (Some s)
        /\ label r = (k + 1)%nat
        /\ cell_name r = escapeHtml (name s)
        /\ cell_id r = escapeHtml (id s)
        /\ cell_email r = escapeHtml (email s)
        /\ cell_contact r = escapeHtml (contact s)
        /\ inert (cell_name r) /\ inert (cell_id r)
        /\ inert (cell_email r) /\ inert (cell_contact r)
        /\ shown_text 0 (cell_name r) = name s
        /\ shown_text 0 (cell_id r) = id s
        /\ shown_text 0 (cell_email r) = email s
        /\ shown_text 0 (cell_contact r) = contact s)
  /\ (forall str : jsstring,
        escapeHtml str = flat_map escape_unit str
        /\ inert (escapeHtml str)
        /\ shown_text 0 (escapeHtml str) = str).
Proof.
  assert (R : forall str, shown_text 0 (escapeHtml str) = str).
  { intros str. rewrite escapeHtml_flat_map. apply shown_text_escape. }
  split.
  - intros st r H. simpl in H.
    apply render_rows_In in H as (k & s & Hk & ->).
    exists k, s. cbn [label cell_name cell_id cell_email cell_contact render_row].
    repeat (split; [first [assumption | reflexivity | apply escapeHtml_inert
                           | apply R]|]).
    apply R.
  - intros str. split; [apply escapeHtml_flat_map|].
    split; [apply escapeHtml_inert | apply R].
Qed.

Example escapeHtml_script :
  escapeHtml (lit "<b>&'") = lit "&lt;b&gt;&amp;&#039;"
  /\ escapeHtml [QUOTE] = AMP :: lit "quot;".
Proof. split; reflexivity. Qed.

End Escaping.

(* ----------------------------------------------------------------- *)
(** ** JSON: the parser reads on and its bound suffices *)

Section JsonParser.

Lemma skip_ws_length s : (List.length (skip_ws s) <= List.length s)%nat.
Proof.
  induction s as [|c s IH]; cbn [skip_ws]; [lia|].
  destruct (is_json_ws c); cbn [List.length]; lia.
Qed.

Lemma skip_ws_cons s c r :
  skip_ws s = c :: r -> (List.length r < List.length s)%nat.
Proof.
  intros H. pose proof (skip_ws_length s) as L. rewrite H in L.
  cbn [List.length] in L. lia.
Qed.

Lemma cons_ok_Some c o v r :
  cons_ok c o = Some (v, r) -> exists v', o = Some (v', r).
Proof.
  destruct o as [[v' r']|]; cbn; [|discriminate]. intros [= _ <-]. eauto.
Qed.

Lemma parse_string_length n : forall s v r,
  (List.length s <= n)%nat ->
  parse_string s = Some (v, r) -> (List.length r < List.length s)%nat.
Proof.
  induction n as [|n IH]; intros s v r Hn H.
  - destruct s; [discriminate | cbn in Hn; lia].
  - destruct s as [|c s]; [discriminate|]. cbn [List.length] in *.
    cbn [parse_string] in H.
    destruct (c =? QUOTE). { injection H as _ <-. lia. }
    destruct (c =? BACKSLASH).
    + destruct s as [|e s1]; [discriminate|]. cbn [List.length] in *.
      assert (Hrec : forall o v' , cons_ok o (parse_string s1) = Some (v', r) ->
                (List.length r < S (S (List.length s1)))%nat).
      { intros o v' Ho. apply cons_ok_Some in Ho as [v'' Ho].
        apply IH in Ho; lia. }
      repeat match type of H with
             | (if ?b then _ else _) = _ => destruct b; [now apply Hrec in H|]
             end.
      destruct (e =? 117); [|discriminate].
      destruct s1 as [|h1 [|h2 [|h3 [|h4 s2]]]]; try discriminate.
      destruct (hex4 h1 h2 h3 h4); [|discriminate].
      apply cons_ok_Some in H as [v'' H]. cbn [List.length] in *.
      apply IH in H; lia.
    + destruct (c <? 32); [discriminate|].
      apply cons_ok_Some in H as [v'' H]. apply IH in H; lia.
Qed.

Lemma span_digits_length s :
  (List.length (snd (span_digits s)) <= List.length s)%nat.
Proof.
  induction s as [|c s IH]; cbn [span_digits]; [cbn; lia|].
  destruct (is_digit c); [|cbn; lia].
  destruct (span_digits s) as [d t]. cbn [snd List.length] in *. lia.
Qed.

Lemma digits1_length s d t :
  digits1 s = Some (d, t) -> (List.length t <= List.length s)%nat.
Proof.
  unfold digits1. pose proof (span_digits_length s) as L.
  destruct (span_digits s) as [[|x d'] t']; [discriminate|].
  intros [= _ <-]. exact L.
Qed.

Lemma parse_int_length s d t :
  parse_int s = Some (d, t) -> (List.length t < List.length s)%nat.
Proof.
  destruct s as [|c s]; [discriminate|]. cbn [parse_int List.length].
  destruct (c =? 48). { intros [= _ <-]. lia. }
  destruct (is_digit c); [|discriminate].
  pose proof (span_digits_length s) as L.
  destruct (span_digits s) as [d' t']. intros [= _ <-]. cbn [snd] in L. lia.
Qed.

Lemma parse_frac_length s d t :
  parse_frac s = Some (d, t) -> (List.length t <= List.length s)%nat.
Proof.
  destruct s as [|c s]; cbn [parse_frac]. { intros [= _ <-]. lia. }
  destruct (c =? DOT).
  - destruct (digits1 s) as [[d' t']|] eqn:E; [|discriminate].
    intros [= _ <-]. apply digits1_length in E. cbn [List.length]. lia.
  - intros [= _ <-]. lia.
Qed.

Lemma parse_exp_length s d t :
  parse_exp s = Some (d, t) -> (List.length t <= List.length s)%nat.
Proof.
  destruct s as [|c s]; cbn [parse_exp]. { intros [= _ <-]. lia. }
  destruct ((c =? 101) || (c =? 69)).
  - destruct s as [|g s1]; [discriminate|].
    destruct ((g =? 43) || (g =? 45)).
    + destruct (digits1 s1) as [[d' t']|] eqn:E; [|discriminate].
      intros [= _ <-]. apply digits1_length in E. cbn [List.length]. lia.
    + destruct (digits1 (g :: s1)) as [[d' t']|] eqn:E; [|discriminate].
      intros [= _ <-]. apply digits1_length in E. cbn [List.length] in *. lia.
  - intros [= _ <-]. lia.
Qed.

Lemma parse_number_length s v r :
  parse_number s = Some (v, r) -> (List.length r < List.length s)%nat.
Proof.
  unfold parse_number.
  set (p := match s with
            | [] => ([], s)
            | c :: r0 => if c =? 45 then ([c], r0) else ([], s)
            end).
  assert (Hp : (List.length (snd p) <= List.length s)%nat).
  { subst p. destruct s as [|c s]; [cbn; lia|].
    destruct (c =? 45); cbn; lia. }
  destruct p as [sign s0]. cbn [snd] in Hp.
  destruct (parse_int s0) as [[i s1]|] eqn:E1; [|discriminate].
  destruct (parse_frac s1) as [[f s2]|] eqn:E2; [|discriminate].
  destruct (parse_exp s2) as [[e s3]|] eqn:E3; [|discriminate].
  intros [= _ <-].
  apply parse_int_length in E1. apply parse_frac_length in E2.
  apply parse_exp_length in E3. lia.
Qed.

Lemma strip_prefix_length w : forall s t,
  strip_prefix w s = Some t -> (List.length t + List.length w = List.length s)%nat.
Proof.
  induction w as [|a w IH]; intros s t; cbn [strip_prefix].
  - intros [= <-]. cbn. lia.
  - destruct s as [|b s]; [discriminate|].
    destruct (a =? b); [|discriminate].
    intros H. apply IH in H. cbn [List.length]. lia.
Qed.

Lemma pbind_POk {A B} (p : presult A) (k : A -> jsstring -> presult B) b r :
  pbind p k = POk b r -> exists a t, p = POk a t /\ k a t = POk b r.
Proof. destruct p; cbn; [eauto | discriminate | discriminate]. Qed.

Lemma pbind_fuel {A B} (p : presult A) (k : A -> jsstring -> presult B) :
  pbind p k = PFuel -> p = PFuel \/ exists a t, p = POk a t /\ k a t = PFuel.
Proof. destruct p; cbn; [eauto | discriminate | auto]. Qed.

Lemma of_option_POk {A} (o : option (A * jsstring)) a r :
  of_option o = POk a r -> o = Some (a, r).
Proof. destruct o as [[a' r']|]; cbn; [|discriminate]. now intros [= -> ->]. Qed.

Lemma of_option_fuel {A} (o : option (A * jsstring)) : of_option o <> PFuel.
Proof. destruct o as [[a' r']|]; discriminate. Qed.

Lemma parsers_consume n :
  consumes parse_value n /\ consumes parse_elements n /\ consumes parse_members n.
Proof.
  induction n as [|n (IHv & IHe & IHm)].
  { repeat split; intros s a r H; discriminate H. }
  split; [|split]; intros s a r H.
  - cbn [parse_value] in H.
    destruct (skip_ws s) as [|c r0] eqn:Es; [discriminate|].
    apply skip_ws_cons in Es.
    destruct (c =? LBRACE).
    { destruct (skip_ws r0) as [|c' r'] eqn:Er; [discriminate|].
      apply skip_ws_cons in Er.
      destruct (c' =? RBRACE). { injection H as _ <-. lia. }
      apply pbind_POk in H as (ms & t & Hm & H). injection H as _ <-.
      apply IHm in Hm. lia. }
    destruct (c =? LBRACKET).
    { destruct (skip_ws r0) as [|c' r'] eqn:Er; [discriminate|].
      apply skip_ws_cons in Er.
      destruct (c' =? RBRACKET). { injection H as _ <-. lia. }
      apply pbind_POk in H as (ms & t & Hm & H). injection H as _ <-.
      apply IHe in Hm. lia. }
    destruct (c =? QUOTE).
    { apply pbind_POk in H as (v & t & Hs & H). injection H as _ <-.
      apply of_option_POk in Hs. apply (parse_string_length _ _ _ _ (le_n _)) in Hs. lia. }
    destruct (strip_prefix (lit "true") (c :: r0)) as [t|] eqn:E1.
    { injection H as _ <-. apply strip_prefix_length in E1. cbn in E1. lia. }
    destruct (strip_prefix (lit "false") (c :: r0)) as [t|] eqn:E2.
    { injection H as _ <-. apply strip_prefix_length in E2. cbn in E2. lia. }
    destruct (strip_prefix (lit "null") (c :: r0)) as [t|] eqn:E3.
    { injection H as _ <-. apply strip_prefix_length in E3. cbn in E3. lia. }
    apply pbind_POk in H as (v & t & Hs & H). injection H as _ <-.
    apply of_option_POk in Hs. apply parse_number_length in Hs.
    cbn [List.length] in Hs. lia.
  - cbn [parse_elements] in H.
    apply pbind_POk in H as (v & t & Hv & H). apply IHv in Hv.
    destruct (skip_ws t) as [|c r0] eqn:Es; [discriminate|].
    apply skip_ws_cons in Es.
    destruct (c =? COMMA).
    { apply pbind_POk in H as (vs & u & He & H). injection H as _ <-.
      apply IHe in He. lia. }
    destruct (c =? RBRACKET); [|discriminate]. injection H as _ <-. lia.
  - cbn [parse_members] in H.
    destruct (skip_ws s) as [|c r0] eqn:Es; [discriminate|].
    apply skip_ws_cons in Es.
    destruct (c =? QUOTE); [|discriminate].
    apply pbind_POk in H as (k & t & Hk & H).
    apply of_option_POk in Hk. apply (parse_string_length _ _ _ _ (le_n _)) in Hk.
    destruct (skip_ws t) as [|c1 r1] eqn:Et; [discriminate|].
    apply skip_ws_cons in Et.
    destruct (c1 =? COLON); [|discriminate].
    apply pbind_POk in H as (v & u & Hv & H). apply IHv in Hv.
    destruct (skip_ws u) as [|c2 r2] eqn:Eu; [discriminate|].
    apply skip_ws_cons in Eu.
    destruct (c2 =? COMMA).
    { apply pbind_POk in H as (ms & w & Hm & H). injection H as _ <-.
      apply IHm in Hm. lia. }
    destruct (c2 =? RBRACE); [|discriminate]. injection H as _ <-. lia.
Qed.

Lemma parsers_have_fuel n :
  (forall s, (2 * List.length s < n)%nat -> parse_value n s <> PFuel)
  /\ (forall s, (2 * List.length s + 1 < n)%nat -> parse_elements n s <> PFuel)
  /\ (forall s, (2 * List.length s + 1 < n)%nat -> parse_members n s <> PFuel).
Proof.
  induction n as [|n (IHv & IHe & IHm)].
  { repeat split; intros s H; lia. }
  destruct (parsers_consume n) as (Cv & Ce & Cm).
  split; [|split]; intros s Hn H.
  - cbn [parse_value] in H.
    destruct (skip_ws s) as [|c r0] eqn:Es; [discriminate|].
    apply skip_ws_cons in Es.
    destruct (c =? LBRACE).
    { destruct (skip_ws r0) as [|c' r'] eqn:Er; [discriminate|].
      destruct (c' =? RBRACE); [discriminate|].
      apply pbind_fuel in H as [H|(ms & t & _ & H)]; [|discriminate].
      apply IHm in H; [assumption | lia]. }
    destruct (c =? LBRACKET).
    { destruct (skip_ws r0) as [|c' r'] eqn:Er; [discriminate|].
      destruct (c' =? RBRACKET); [discriminate|].
      apply pbind_fuel in H as [H|(ms & t & _ & H)]; [|discriminate].
      apply IHe in H; [assumption | lia]. }
    destruct (c =? QUOTE).
    { apply pbind_fuel in H as [H|(ms & t & _ & H)]; [|discriminate].
      now apply of_option_fuel in H. }
    destruct (strip_prefix (lit "true") (c :: r0)); [discriminate|].
    destruct (strip_prefix (lit "false") (c :: r0)); [discriminate|].
    destruct (strip_prefix (lit "null") (c :: r0)); [discriminate|].
    apply pbind_fuel in H as [H|(ms & t & _ & H)]; [|discriminate].
    now apply of_option_fuel in H.
  - cbn [parse_elements] in H.
    apply pbind_fuel in H as [H|(v & t & Hv & H)].
    { apply IHv in H; [assumption | lia]. }
    apply Cv in Hv.
    destruct (skip_ws t) as [|c r0] eqn:Es; [discriminate|].
    apply skip_ws_cons in Es.
    destruct (c =? COMMA).
    { apply pbind_fuel in H as [H|(vs & u & _ & H)]; [|discriminate].
      apply IHe in H; [assumption | lia]. }
    destruct (c =? RBRACKET); discriminate.
  - cbn [parse_members] in H.
    destruct (skip_ws s) as [|c r0] eqn:Es; [discriminate|].
    apply skip_ws_cons in Es.
    destruct (c =? QUOTE); [|discriminate].
    apply pbind_fuel in H as [H|(k & t & Hk & H)].
    { now apply of_option_fuel in H. }
    apply of_option_POk in Hk. apply (parse_string_length _ _ _ _ (le_n _)) in Hk.
    destruct (skip_ws t) as [|c1 r1] eqn:Et; [discriminate|].
    apply skip_ws_cons in Et.
    destruct (c1 =? COLON); [|discriminate].
    apply pbind_fuel in H as [H|(v & u & Hv & H)].
    { apply IHv in H; [assumption | lia]. }
    apply Cv in Hv.
    destruct (skip_ws u) as [|c2 r2] eqn:Eu; [discriminate|].
    apply skip_ws_cons in Eu.
    destruct (c2 =? COMMA).
    { apply pbind_fuel in H as [H|(ms & w & _ & H)]; [|discriminate].
      apply IHm in H; [assumption | lia]. }
    destruct (c2 =? RBRACE); discriminate.
Qed.

(** The recursion bound of [JSON_parse] is never exhausted: [JSON_parse]
    answers [None] only for text that is not JSON. *)
Lemma parse_value_bound text : parse_value (fuel_for text) text <> PFuel.
Proof.
  apply (proj1 (parsers_have_fuel (fuel_for text))). unfold fuel_for. lia.
Qed.

Lemma pbind_fuel_inv {A B} (p : presult A) (k : A -> jsstring -> presult B) :
  pbind p k <> PFuel -> p <> PFuel.
Proof. intros H E. apply H. now rewrite E. Qed.

(** A larger bound does not change an answer. *)
Lemma parsers_fuel_mono n : forall m, (n <= m)%nat ->
  (forall s, parse_value n s <> PFuel -> parse_value m s = parse_value n s)
  /\ (forall s, parse_elements n s <> PFuel -> parse_elements m s = parse_elements n s)
  /\ (forall s, parse_members n s <> PFuel -> parse_members m s = parse_members n s).
Proof.
  induction n as [|n IH]; intros m Hm.
  { repeat split; intros s H; now contradiction H. }
  destruct m as [|m]; [lia|].
  destruct (IH m ltac:(lia)) as (IHv & IHe & IHm). clear IH.
  split; [|split]; intros s H.
  - cbn [parse_value] in *.
    destruct (skip_ws s) as [|c r0]; [reflexivity|].
    destruct (c =? LBRACE).
    { destruct (skip_ws r0) as [|c' r']; [reflexivity|].
      destruct (c' =? RBRACE); [reflexivity|].
      now rewrite IHm by (now apply pbind_fuel_inv in H). }
    destruct (c =? LBRACKET).
    { destruct (skip_ws r0) as [|c' r']; [reflexivity|].
      destruct (c' =? RBRACKET); [reflexivity|].
      now rewrite IHe by (now apply pbind_fuel_inv in H). }
    reflexivity.
  - cbn [parse_elements] in *.
    rewrite IHv by (now apply pbind_fuel_inv in H).
    destruct (parse_value n s) as [v t| |]; cbn [pbind] in *; try reflexivity.
    destruct (skip_ws t) as [|c r0]; [reflexivity|].
    destruct (c =? COMMA); [|reflexivity].
    now rewrite IHe by (now apply pbind_fuel_inv in H).
  - cbn [parse_members] in *.
    destruct (skip_ws s) as [|c r0]; [reflexivity|].
    destruct (c =? QUOTE); [|reflexivity].
    destruct (of_option (parse_string r0)) as [k t| |]; cbn [pbind] in *;
      try reflexivity.
    destruct (skip_ws t) as [|c1 r1]; [reflexivity|].
    destruct (c1 =? COLON); [|reflexivity].
    rewrite IHv by (now apply pbind_fuel_inv in H).
    destruct (parse_value n r1) as [v u| |]; cbn [pbind] in *; try reflexivity.
    destruct (skip_ws u) as [|c2 r2]; [reflexivity|].
    destruct (c2 =? COMMA); [|reflexivity].
    now rewrite IHm by (now apply pbind_fuel_inv in H).
Qed.

(** [JSON_parse] does not depend on its bound: any larger one gives the
    same value. *)
Lemma parse_value_any_bound text m :
  (fuel_for text <= m)%nat ->
  parse_value m text = parse_value (fuel_for text) text.
Proof.
  intros H. apply (proj1 (parsers_fuel_mono (fuel_for text) m H)).
  apply parse_value_bound.
Qed.

End JsonParser.

(* ----------------------------------------------------------------- *)
(** ** JSON: what was written is read back *)

Section JsonRoundTrip.

Lemma hex_digit_value d : d < 16 -> hex_value (hex_digit d) = Some d.
Proof.
  intros H.
  assert (E : d = 0 \/ d = 1 \/ d = 2 \/ d = 3 \/ d = 4 \/ d = 5 \/ d = 6 \/ d = 7
          \/ d = 8 \/ d = 9 \/ d = 10 \/ d = 11 \/ d = 12 \/ d = 13 \/ d = 14 \/ d = 15) by lia.
  repeat (destruct E as [->|E]; [reflexivity|]). subst. reflexivity.
Qed.

Lemma hex4_unicode_escape c : c < 65536 ->
  hex4 (hex_digit ((c / 4096) mod 16)) (hex_digit ((c / 256) mod 16))
       (hex_digit ((c / 16) mod 16)) (hex_digit (c mod 16)) = Some c.
Proof.
  intros H. unfold hex4.
  rewrite !hex_digit_value by (apply N.mod_lt; discriminate).
  f_equal.
  zify. Z.to_euclidean_division_equations. lia.
Qed.

Lemma parse_string_unit c tail :
  parse_string (quote_unit c ++ tail) = cons_ok c (parse_string tail).
Proof.
  unfold quote_unit.
  destruct (c =? 8) eqn:E8; [apply N.eqb_eq in E8; subst; reflexivity|].
  destruct (c =? 9) eqn:E9; [apply N.eqb_eq in E9; subst; reflexivity|].
  destruct (c =? 10) eqn:E10; [apply N.eqb_eq in E10; subst; reflexivity|].
  destruct (c =? 12) eqn:E12; [apply N.eqb_eq in E12; subst; reflexivity|].
  destruct (c =? 13) eqn:E13; [apply N.eqb_eq in E13; subst; reflexivity|].
  destruct (c =? QUOTE) eqn:EQ; [apply N.eqb_eq in EQ; subst; reflexivity|].
  destruct (c =? BACKSLASH) eqn:EB; [apply N.eqb_eq in EB; subst; reflexivity|].
  destruct ((c <? 32) || is_high_surrogate c || is_low_surrogate c) eqn:EU.
  - assert (Hc : c < 65536).
    { unfold is_high_surrogate, is_low_surrogate in EU.
      rewrite !orb_true_iff, !andb_true_iff, N.ltb_lt, !N.leb_le in EU. lia. }
    unfold unicode_escape.
    cbn [app parse_string].
    change (BACKSLASH =? QUOTE) with false.
    change (BACKSLASH =? BACKSLASH) with true.
    change (117 =? QUOTE) with false. change (117 =? BACKSLASH) with false.
    change (117 =? 47) with false. change (117 =? 98) with false.
    change (117 =? 102) with false. change (117 =? 110) with false.
    change (117 =? 114) with false. change (117 =? 116) with false.
    change (117 =? 117) with true. cbv iota.
    now rewrite hex4_unicode_escape.
  - apply orb_false_iff in EU as [EU _]. apply orb_false_iff in EU as [EU _].
    cbn [app parse_string]. now rewrite EQ, EB, EU.
Qed.

Lemma parse_string_pair c d tail :
  is_high_surrogate c && is_low_surrogate d = true ->
  parse_string (c :: d :: tail) = cons_ok c (cons_ok d (parse_string tail)).
Proof.
  unfold is_high_surrogate, is_low_surrogate.
  rewrite !andb_true_iff, !N.leb_le. intros H.
  assert (Hc : (c =? QUOTE) = false /\ (c =? BACKSLASH) = false /\ (c <? 32) = false).
  { rewrite !N.eqb_neq, N.ltb_ge. unfold QUOTE, BACKSLASH. lia. }
  assert (Hd : (d =? QUOTE) = false /\ (d =? BACKSLASH) = false /\ (d <? 32) = false).
  { rewrite !N.eqb_neq, N.ltb_ge. unfold QUOTE, BACKSLASH. lia. }
  destruct Hc as (H1 & H2 & H3). destruct Hd as (H4 & H5 & H6).
  cbn [parse_string]. now rewrite H1, H2, H3, H4, H5, H6.
Qed.

Lemma parse_string_quote_body_aux rest s :
  parse_string (quote_body s ++ QUOTE :: rest) = Some (s, rest)
  /\ forall c, parse_string (quote_body (c :: s) ++ QUOTE :: rest) = Some (c :: s, rest).
Proof.
  induction s as [|d s [IH1 IH2]].
  - split; [reflexivity|].
    intros c. cbn [quote_body]. now rewrite parse_string_unit.
  - split; [apply IH2|].
    intros c. change (quote_body (c :: d :: s))
      with (if is_high_surrogate c && is_low_surrogate d
            then c :: d :: quote_body s
            else quote_unit c ++ quote_body (d :: s)).
    destruct (is_high_surrogate c && is_low_surrogate d) eqn:E.
    + cbn [app]. rewrite parse_string_pair by assumption. now rewrite IH1.
    + rewrite <- app_assoc, parse_string_unit. now rewrite IH2.
Qed.

Lemma parse_string_quote_body s rest :
  parse_string (quote_body s ++ QUOTE :: rest) = Some (s, rest).
Proof. apply parse_string_quote_body_aux. Qed.


Lemma parse_string_quote s rest :
  parse_string (quote_body s ++ [QUOTE] ++ rest) = Some (s, rest).
Proof. apply parse_string_quote_body. Qed.

Lemma parse_value_string f s rest :
  parse_value (S f) (quote s ++ rest) = POk (VStr s) rest.
Proof.
  unfold quote. cbn [app parse_value skip_ws].
  change (is_json_ws QUOTE) with false. cbv iota.
  change (QUOTE =? LBRACE) with false. change (QUOTE =? LBRACKET) with false.
  change (QUOTE =? QUOTE) with true. cbv iota.
  rewrite <- app_assoc, parse_string_quote. reflexivity.
Qed.

Lemma parse_members_step f k v c2 r2 :
  is_json_ws c2 = false ->
  parse_members (S (S f)) (quote k ++ COLON :: quote v ++ c2 :: r2)
  = if c2 =? COMMA then
      pbind (parse_members (S f) r2) (fun ms w => POk ((k, VStr v) :: ms) w)
    else if c2 =? RBRACE then POk [(k, VStr v)] r2
    else PErr.
Proof.
  intros Hc2.
  unfold quote at 1. cbn [app parse_members skip_ws].
  change (is_json_ws QUOTE) with false. cbv iota.
  change (QUOTE =? QUOTE) with true. cbv iota.
  rewrite <- app_assoc, parse_string_quote.
  cbn [of_option pbind app skip_ws].
  change (is_json_ws COLON) with false. cbv iota.
  change (COLON =? COLON) with true. cbv iota.
  rewrite parse_value_string.
  cbn [pbind skip_ws]. rewrite Hc2. reflexivity.
Qed.


Lemma parse_value_object n k tl :
  parse_value (S n) (LBRACE :: quote k ++ tl)
  = pbind (parse_members n (quote k ++ tl))
      (fun ms t => POk (VObj (obj_of_members ms)) t).
Proof. reflexivity. Qed.

Lemma stringify_record_app r rest :
  stringify_record r ++ rest
  = LBRACE :: quote (lit "name") ++ COLON :: quote (name r) ++ COMMA ::
      (quote (lit "id") ++ COLON :: quote (id r) ++ COMMA ::
         (quote (lit "email") ++ COLON :: quote (email r) ++ COMMA ::
            (quote (lit "contact") ++ COLON :: quote (contact r) ++ RBRACE :: rest))).
Proof.
  unfold stringify_record, property.
  repeat (rewrite <- ?app_assoc, <- ?app_comm_cons). reflexivity.
Qed.

Lemma parse_value_record f r rest :
  parse_value (6 + f) (stringify_record r ++ rest) = POk (value_of_record r) rest.
Proof.
  rewrite stringify_record_app.
  change (6 + f)%nat with (S (S (S (S (S (S f)))))).
  rewrite parse_value_object.
  rewrite parse_members_step by reflexivity.
  change (COMMA =? COMMA) with true. cbv iota.
  rewrite parse_members_step by reflexivity.
  change (COMMA =? COMMA) with true. cbv iota.
  rewrite parse_members_step by reflexivity.
  change (COMMA =? COMMA) with true. cbv iota.
  rewrite parse_members_step by reflexivity.
  reflexivity.
Qed.

Lemma stringify_element_head o tl :
  exists c r, stringify_element o ++ tl = c :: r
    /\ is_json_ws c = false /\ (c =? RBRACKET) = false /\ (c =? RBRACE) = false.
Proof.
  destruct o as [r|]; cbn [stringify_element].
  - rewrite stringify_record_app. eexists _, _. split; [reflexivity|]. auto.
  - eexists _, _. split; [reflexivity|]. auto.
Qed.

Lemma parse_value_element f o rest :
  parse_value (6 + f) (stringify_element o ++ rest) = POk (value_of_element o) rest.
Proof.
  destruct o as [r|]; cbn [stringify_element value_of_element];
    [apply parse_value_record | reflexivity].
Qed.

Lemma parse_elements_stringify l : forall f rest,
  l <> [] ->
  parse_elements (6 + List.length l + f) (stringify_elements l ++ RBRACKET :: rest)
  = POk (map value_of_element l) rest.
Proof.
  induction l as [|o l IH]; intros f rest Hne; [congruence|].
  destruct l as [|o' l].
  - cbn [stringify_elements List.length map].
    change (6 + 1 + f)%nat with (S (6 + f)).
    cbn [parse_elements]. rewrite parse_value_element. reflexivity.
  - change (stringify_elements (o :: o' :: l))
      with (stringify_element o ++ COMMA :: stringify_elements (o' :: l)).
    rewrite <- app_assoc, <- app_comm_cons.
    replace (6 + List.length (o :: o' :: l) + f)%nat
      with (S (6 + (List.length (o' :: l) + f)))%nat by (cbn [List.length]; lia).
    cbn [parse_elements]. rewrite parse_value_element.
    cbn [pbind skip_ws]. change (is_json_ws COMMA) with false. cbv iota.
    change (COMMA =? COMMA) with true. cbv iota.
    rewrite Nat.add_assoc, IH by discriminate. reflexivity.
Qed.

Lemma parse_value_stringify l f rest :
  parse_value (7 + List.length l + f) (stringify l ++ rest)
  = POk (VArr (map value_of_element l)) rest.
Proof.
  unfold stringify. rewrite <- app_comm_cons, <- app_assoc.
  change (7 + List.length l + f)%nat with (S (6 + List.length l + f)).
  destruct l as [|o l]; [reflexivity|].
  cbn [parse_value skip_ws]. change (is_json_ws LBRACKET) with false. cbv iota.
  change (LBRACKET =? LBRACE) with false. change (LBRACKET =? LBRACKET) with true.
  cbv iota.
  assert (H : exists c r, (stringify_elements (o :: l) ++ [RBRACKET] ++ rest) = c :: r
            /\ is_json_ws c = false /\ (c =? RBRACKET) = false).
  { destruct l as [|o' l].
    - cbn [stringify_elements].
      destruct (stringify_element_head o ([RBRACKET] ++ rest)) as (c & r & E & H1 & H2 & _).
      eauto.
    - change (stringify_elements (o :: o' :: l))
        with (stringify_element o ++ COMMA :: stringify_elements (o' :: l)).
      rewrite <- app_assoc.
      destruct (stringify_element_head o ((COMMA :: stringify_elements (o' :: l)) ++ [RBRACKET] ++ rest))
        as (c & r & E & H1 & H2 & _).
      eauto. }
  destruct H as (c & r & E & H1 & H2).
  pose proof (parse_elements_stringify (o :: l) f rest) as P.
  cbn [app] in E |- *. rewrite E in P |- *.
  cbn [skip_ws]. rewrite H1, H2.
  rewrite P by discriminate. reflexivity.
Qed.

Lemma stringify_elements_length l :
  (4 * List.length l <= List.length (stringify_elements l) + 1)%nat.
Proof.
  induction l as [|o l IH]; [simpl; lia|].
  assert (Ho : (4 <= List.length (stringify_element o))%nat).
  { destruct o as [r|]; cbn [stringify_element]; [|simpl; lia].
    rewrite <- (app_nil_r (stringify_record r)), stringify_record_app.
    unfold quote.
    repeat (progress (cbn [List.length]) || rewrite length_app). lia. }
  destruct l as [|o' l].
  - cbn [stringify_elements List.length]. lia.
  - change (stringify_elements (o :: o' :: l))
      with (stringify_element o ++ COMMA :: stringify_elements (o' :: l)).
    rewrite length_app. cbn [List.length] in *. lia.
Qed.

Lemma JSON_parse_stringify l :
  JSON_parse (stringify l) = Some (VArr (map value_of_element l)).
Proof.
  destruct l as [|o l0]; [reflexivity|].
  set (l := o :: l0).
  assert (Hk : (1 <= List.length l)%nat) by (subst l; cbn [List.length]; lia).
  clearbody l. clear o l0.
  unfold JSON_parse.
  pose proof (stringify_elements_length l) as Hl.
  assert (Hf : exists f, fuel_for (stringify l) = (7 + List.length l + f)%nat).
  { unfold fuel_for, stringify. cbn [List.length]. rewrite length_app. cbn [List.length].
    exists (2 * (S (List.length (stringify_elements l) + 1)) + 2 - 7 - List.length l)%nat.
    lia. }
  destruct Hf as [f ->].
  rewrite <- (app_nil_r (stringify l)) at 1.
  rewrite parse_value_stringify. reflexivity.
Qed.

Lemma records_of_list_values rs :
  records_of_list (map value_of_element (map Some rs)) = Some rs.
Proof.
  induction rs as [|r rs IH]; [reflexivity|].
  cbn [map records_of_list value_of_element]. rewrite IH.
  destruct r; reflexivity.
Qed.

Lemma loadStudents_stringify l :
  loadStudents (Some (stringify l)) = VArr (map value_of_element l).
Proof.
  unfold loadStudents. rewrite JSON_parse_stringify. reflexivity.
Qed.

(** C5: for every sequence of records, after [saveStudents] has written it,
    [loadStudents] returns an array of the same length whose element at each
    position is an object with the same [name], [id], [email] and [contact];
    read as records it is the sequence saved, and a page started on that
    storage holds exactly this sequence. *)
Theorem save_then_load_roundtrip :
  forall (rs : list StudentRecord) (st : state),
    let saved := saveStudents (set_students (map Some rs) st) in
    loadStudents (localStorage saved) = VArr (map value_of_record rs)
    /\ records_of (loadStudents (localStorage saved)) = Some rs
    /\ exists st', boot (localStorage saved) = Some st'
                   /\ students st' = map Some rs.
Proof.
  intros rs st. cbv zeta. unfold saveStudents. cbn [localStorage set_localStorage students set_students].
  rewrite loadStudents_stringify.
  split; [now rewrite map_map|].
  split; [apply records_of_list_values|].
  unfold boot. rewrite loadStudents_stringify.
  cbn [records_of]. rewrite records_of_list_values.
  eexists. split; reflexivity.
Qed.

Example roundtrip_escapes :
  records_of (loadStudents (Some (stringify
    [Some (mkStudent [34; 92; 10] [1; 127] [55357; 56832] [56832; 55357])])))
  = Some [mkStudent [34; 92; 10] [1; 127] [55357; 56832] [56832; 55357]].
Proof. reflexivity. Qed.

(** [loadStudents], case by case: the empty array when the slot is
    missing, empty or not JSON text, and otherwise whatever [JSON.parse]
    returns; the records when the text is one [saveStudents] wrote. *)
Lemma loadStudents_cases :
  forall ls : storage,
    loadStudents ls
    = match ls with
      | None => VArr []
      | Some raw => match JSON_parse raw with
                    | Some v => v
                    | None => VArr []
                    end
      end
    /\ (forall rs, ls = Some (stringify (map Some rs)) ->
          records_of (loadStudents ls) = Some rs)
    /\ (ls = None \/ ls = Some [] \/ (exists raw, ls = Some raw /\ JSON_parse raw = None) ->
        loadStudents ls = VArr []).
Proof.
  intros ls. split; [|split].
  - destruct ls as [[|c raw]|]; reflexivity.
  - intros rs ->. rewrite loadStudents_stringify. apply records_of_list_values.
  - intros [->|[->|(raw & -> & E)]]; try reflexivity.
    unfold loadStudents. rewrite E. now destruct (falsy raw).
Qed.

(** C4: the code fails the claim on the slot text [{}].  The text is not
    the serialisation of a record sequence, yet [loadStudents] returns the
    object it denotes, which is no array at all, where the claim (and the
    function's own description, "safely get persisted array") asks for the
    empty sequence.  Its sibling paths do return the empty array: a missing
    slot, and text that does not parse. *)
Lemma loadStudents_returns_object :
  loadStudents (Some (lit "{}")) = VObj []
  /\ (forall vs, loadStudents (Some (lit "{}")) <> VArr vs)
  /\ ~ load_as_stated (Some (lit "{}"))
  /\ loadStudents None = VArr []
  /\ loadStudents (Some (lit "{")) = VArr [].
Proof.
  split; [reflexivity|]. split; [discriminate|]. split; [|split; reflexivity].
  intros [_ H].
  assert (E : loadStudents (Some (lit "{}")) = VArr []); [|discriminate E].
  apply H. right. exists (lit "{}"). split; [reflexivity|].
  intros (v & rs & Hv & Hrs).
  assert (v = VObj []) by (vm_compute in Hv; congruence).
  subst v. discriminate.
Qed.

End JsonRoundTrip.

(* ----------------------------------------------------------------- *)
(** ** The form controller *)

Section Controller.

Lemma jsstring_eqb_eq a b : jsstring_eqb a b = true <-> a = b.
Proof.
  unfold jsstring_eqb. destruct (list_eq_dec N.eq_dec a b); split; congruence.
Qed.

Lemma record_eqb_eq a b :
  record_eqb a b = true <->
  name a = name b /\ id a = id b /\ email a = email b /\ contact a = contact b.
Proof.
  unfold record_eqb. rewrite !andb_true_iff, !jsstring_eqb_eq. tauto.
Qed.

Lemma array_some_duplicate v a :
  array_some (fun s => record_eqb s v) a = true <-> duplicate_of v a.
Proof.
  unfold array_some, duplicate_of. rewrite existsb_exists. split.
  - intros ([s|] & Hin & Hs); [|discriminate].
    exists s. split; [assumption | now apply record_eqb_eq].
  - intros (s & Hin & Hs). exists (Some s). split; [assumption | now apply record_eqb_eq].
Qed.

Lemma validateForm_cases st :
  (exists m, validateForm st = (announce m st, VFail m))
  \/ (exists v, validateForm st = (st, VOk v) /\ valid_record v = true).
Proof.
  unfold validateForm, fail.
  destruct (falsy _ || falsy _ || falsy _ || falsy _); [left; eauto|].
  destruct (test name_re _) eqn:E1; cbn [negb]; [|left; eauto].
  destruct (test id_re _) eqn:E2; cbn [negb]; [|left; eauto].
  destruct (test email_re _) eqn:E3; cbn [negb]; [|left; eauto].
  destruct (test contact_re _) eqn:E4; cbn [negb]; [|left; eauto].
  right. eexists. split; [reflexivity|].
  unfold valid_record. cbn [name id email contact]. now rewrite E1, E2, E3, E4.
Qed.

Lemma validateForm_ok st st' v :
  validateForm st = (st', VOk v) -> st' = st /\ valid_record v = true.
Proof.
  intros H. destruct (validateForm_cases st) as [(m & E)|(v' & E & Hv)];
    rewrite E in H; [discriminate|].
  injection H as <- <-. auto.
Qed.

Lemma validateForm_fail st st' m :
  validateForm st = (st', VFail m) -> st' = announce m st.
Proof.
  intros H. destruct (validateForm_cases st) as [(m' & E)|(v' & E & Hv)];
    rewrite E in H; [|discriminate].
  now injection H as <- <-.
Qed.

Lemma validateForm_fail_message st st' m :
  validateForm st = (st', VFail m) -> exists r, m = message r.
Proof.
  unfold validateForm, fail.
  destruct (falsy _ || falsy _ || falsy _ || falsy _);
    [intros [= _ <-]; now exists MissingField|].
  destruct (test name_re _); cbn [negb];
    [|intros [= _ <-]; now exists InvalidName].
  destruct (test id_re _); cbn [negb];
    [|intros [= _ <-]; now exists InvalidId].
  destruct (test email_re _); cbn [negb];
    [|intros [= _ <-]; now exists InvalidEmail].
  destruct (test contact_re _); cbn [negb];
    [|intros [= _ <-]; now exists InvalidContact].
  discriminate.
Qed.

(* Arrays *)

Lemma array_get_Some a i s :
  array_get a i = Some s ->
  (0 <= i < Z.of_nat (List.length a))%Z /\ nth_error a (Z.to_nat i) = Some (Some s).
Proof.
  unfold array_get. destruct (i <? 0)%Z eqn:E; [discriminate|].
  apply Z.ltb_ge in E.
  destruct (nth_error a (Z.to_nat i)) as [[r|]|] eqn:En; try discriminate.
  intros [= ->]. split; [|reflexivity].
  assert (Z.to_nat i < List.length a)%nat by (apply nth_error_Some; congruence).
  lia.
Qed.


Lemma array_set_in_range a i v :
  (0 <= i < Z.of_nat (List.length a))%Z ->
  List.length (array_set a i v) = List.length a
  /\ nth_error (array_set a i v) (Z.to_nat i) = Some (Some v)
  /\ forall j, j <> Z.to_nat i ->
       nth_error (array_set a i v) j = nth_error a j.
Proof.
  intros H. unfold array_set.
  assert (E : (i <? 0)%Z = false) by (apply Z.ltb_ge; lia). rewrite E.
  set (n := Z.to_nat i). assert (Hn : (n < List.length a)%nat) by lia.
  assert (E' : (n <? List.length a)%nat = true) by now apply Nat.ltb_lt.
  rewrite E'. clear E E'.
  assert (Hf : List.length (firstn n a) = n) by (rewrite length_firstn; lia).
  split; [|split].
  - rewrite length_app. cbn [List.length]. rewrite Hf, length_skipn. lia.
  - rewrite nth_error_app2 by lia. rewrite Hf, Nat.sub_diag. reflexivity.
  - intros j Hj. destruct (Nat.lt_ge_cases j n) as [Hlt|Hge].
    + rewrite nth_error_app1 by lia. now rewrite nth_error_firstn, (proj2 (Nat.ltb_lt j n) Hlt).
    + rewrite nth_error_app2 by lia. rewrite Hf.
      destruct (j - n)%nat as [|k] eqn:Ek; [lia|]. cbn [nth_error].
      rewrite nth_error_skipn. f_equal. lia.
Qed.

Lemma array_set_beyond a i v :
  (Z.of_nat (List.length a) <= i)%Z ->
  array_set a i v = a ++ repeat None (Z.to_nat i - List.length a) ++ [Some v].
Proof.
  intros H. unfold array_set.
  assert (E : (i <? 0)%Z = false) by (apply Z.ltb_ge; lia). rewrite E.
  assert (E' : (Z.to_nat i <? List.length a)%nat = false) by (apply Nat.ltb_ge; lia).
  now rewrite E'.
Qed.

(* Submission, case by case *)

Lemma submit_fail st m :
  validateForm st = (announce m st, VFail m) -> submit st = announce m st.
Proof. intros E. unfold submit. now rewrite E. Qed.

Lemma submit_add st v :
  validateForm st = (st, VOk v) -> editIndex st = None ->
  submit st
  = if array_some (fun s => record_eqb s v) (students st)
    then announce "This exact record already exists." st
    else resetForm (renderTable (saveStudents
           (announce "Student added."
              (set_students (array_push (students st) v) st)))).
Proof.
  intros E Hn. unfold submit. rewrite E, Hn.
  now destruct (array_some _ _).
Qed.

Lemma submit_edit st v i :
  validateForm st = (st, VOk v) -> editIndex st = Some i ->
  submit st
  = resetForm (renderTable (saveStudents
      (announce "Student updated."
         (set_students (array_set (students st) i v) st)))).
Proof.
  intros E Hi. unfold submit. rewrite E, Hi.
  now rewrite andb_false_r.
Qed.

(** C2: for a form that validates to the record [v]: while adding, the
    submission is answered with the duplicate message and leaves the whole
    page as it was (store, storage and table) exactly when a stored record
    has the four fields of [v], and otherwise appends [v]; while editing
    position [i] no duplicate check applies: the submission writes [v] at
    [i] and persists it, also when [v] equals another stored record. *)
Theorem duplicate_check_only_when_adding :
  forall (st : state) (v : StudentRecord),
    validateForm st = (st, VOk v) ->
    (editIndex st = None ->
       (submit st = announce "This exact record already exists." st
        <-> duplicate_of v (students st))
       /\ (~ duplicate_of v (students st) ->
           students (submit st) = students st ++ [Some v]
           /\ formMsg (submit st) = "Student added."%string))
    /\ (forall i, editIndex st = Some i ->
          students (submit st) = array_set (students st) i v
          /\ formMsg (submit st) = "Student updated."%string
          /\ localStorage (submit st)
             = Some (stringify (array_set (students st) i v))).
Proof.
  intros st v E. split.
  - intros Hn. rewrite (submit_add st v E Hn).
    destruct (array_some _ _) eqn:Ed.
    + apply array_some_duplicate in Ed. split; [tauto|]. intros H; contradiction.
    + assert (Hnd : ~ duplicate_of v (students st)).
      { intros H. apply array_some_duplicate in H. congruence. }
      split; [|intros _; split; reflexivity].
      split; [|intros H; contradiction].
      intros H. apply (f_equal students) in H. cbn in H.
      apply (f_equal (@List.length _)) in H. unfold array_push in H.
      rewrite length_app in H. cbn in H. lia.
  - intros i Hi. rewrite (submit_edit st v i E Hi). repeat split.
Qed.

Lemma duplicate_check_witness :
  validateForm (page [Some ann] None ann) = (page [Some ann] None ann, VOk ann)
  /\ submit (page [Some ann] None ann)
     = announce "This exact record already exists." (page [Some ann] None ann)
  /\ students (submit (page [Some ann; Some bob] (Some 0%Z) bob))
     = [Some bob; Some bob].
Proof.
  split; [reflexivity|]. split.
  - apply (proj1 (duplicate_check_only_when_adding
                    (page [Some ann] None ann) ann eq_refl) eq_refl).
    exists ann. split; [now left | repeat split].
  - exact (proj1 (proj2 (duplicate_check_only_when_adding
                    (page [Some ann; Some bob] (Some 0%Z) bob) bob eq_refl)
                    0%Z eq_refl)).
Defined.

(** C7: a valid submission while editing position [i] of the store keeps
    the length of the sequence, puts the validated record at [i] and leaves
    every other position as it was; the result is persisted and drawn, and
    the page is back in adding mode. *)
Theorem edit_replaces_only_position :
  forall (st : state) (i : Z) (v : StudentRecord),
    editIndex st = Some i ->
    (0 <= i < Z.of_nat (List.length (students st)))%Z ->
    validateForm st = (st, VOk v) ->
    List.length (students (submit st)) = List.length (students st)
    /\ nth_error (students (submit st)) (Z.to_nat i) = Some (Some v)
    /\ (forall j, j <> Z.to_nat i ->
          nth_error (students (submit st)) j = nth_error (students st) j)
    /\ localStorage (submit st) = Some (stringify (students (submit st)))
    /\ tbody (submit st) = render_rows 0 (students (submit st))
    /\ editIndex (submit st) = None.
Proof.
  intros st i v Hi Hr E. rewrite (submit_edit st v i E Hi).
  cbn [students localStorage tbody editIndex resetForm renderTable saveStudents
       set_localStorage announce set_students].
  destruct (array_set_in_range (students st) i v Hr) as (H1 & H2 & H3).
  repeat split; assumption.
Qed.

Lemma edit_replaces_witness :
  editIndex (page [Some ann; Some bob] (Some 0%Z) bob) = Some 0%Z
  /\ validateForm (page [Some ann; Some bob] (Some 0%Z) bob)
     = (page [Some ann; Some bob] (Some 0%Z) bob, VOk bob)
  /\ List.length (students (submit (page [Some ann; Some bob] (Some 0%Z) bob))) = 2%nat.
Proof.
  split; [reflexivity|]. split; [reflexivity|].
  apply (edit_replaces_only_position (page [Some ann; Some bob] (Some 0%Z) bob) 0 bob);
    [reflexivity | cbn; lia | reflexivity].
Defined.

(** C8: a rejected validation (whatever the failed check), a duplicate
    found while adding and a declined delete return with the store, the
    storage, the table, the edit marker and the four inputs as they were;
    the first two only change the message shown. *)
Theorem failures_change_nothing :
  forall st : state,
    (forall m, snd (validateForm st) = VFail m ->
       submit st = announce m st /\ exists r, m = message r)
    /\ (forall v, snd (validateForm st) = VOk v -> editIndex st = None ->
          duplicate_of v (students st) ->
          submit st = announce "This exact record already exists." st)
    /\ (forall i, deleteRow i false st = st)
    /\ (forall m,
          students (announce m st) = students st
          /\ localStorage (announce m st) = localStorage st
          /\ tbody (announce m st) = tbody st
          /\ editIndex (announce m st) = editIndex st
          /\ submitBtn (announce m st) = submitBtn st
          /\ nameInput (announce m st) = nameInput st
          /\ idInput (announce m st) = idInput st
          /\ emailInput (announce m st) = emailInput st
          /\ contactInput (announce m st) = contactInput st).
Proof.
  intros st. split; [|split; [|split]].
  - intros m H.
    destruct (validateForm st) as [st' r] eqn:E. cbn in H. subst r.
    pose proof (validateForm_fail _ _ _ E) as ->.
    split; [now apply submit_fail | exact (validateForm_fail_message st _ m E)].
  - intros v H Hn Hd.
    destruct (validateForm st) as [st' r] eqn:E. cbn in H. subst r.
    destruct (validateForm_ok _ _ _ E) as [-> _].
    rewrite (submit_add st v E Hn).
    apply array_some_duplicate in Hd. now rewrite Hd.
  - intros i. unfold deleteRow. destruct (array_get _ _); reflexivity.
  - intros m. repeat split.
Qed.

Lemma failures_witness :
  submit (page [Some ann] None odd)
  = announce (message InvalidName) (page [Some ann] None odd)
  /\ submit (page [Some ann] None ann)
     = announce "This exact record already exists." (page [Some ann] None ann)
  /\ deleteRow 0 false (page [Some ann] None bob) = page [Some ann] None bob.
Proof.
  split; [|split].
  - apply (proj1 (failures_change_nothing (page [Some ann] None odd))). reflexivity.
  - apply (proj1 (proj2 (failures_change_nothing (page [Some ann] None ann))) ann);
      [reflexivity | reflexivity |].
    exists ann. split; [now left | repeat split].
  - apply (proj1 (proj2 (proj2 (failures_change_nothing (page [Some ann] None bob))))).
Defined.

Lemma edit_marker_step e st : edit_marker_ok st -> edit_marker_ok (step e st).
Proof.
  intros H. destruct e as [v|v|v|v| |i|i ok]; cbn [step handleRowAction]; try exact H.
  - unfold submit.
    destruct (validateForm_cases st) as [(m & E)|(v & E & _)]; rewrite E.
    + exact H.
    + destruct (array_some _ _ && _); [exact H | exact I].
  - unfold startEdit. destruct (array_get (students st) i) as [s|] eqn:E; [|exact H].
    unfold edit_marker_ok. cbn [editIndex students announce].
    split; [now apply array_get_Some in E | eauto].
  - unfold deleteRow. destruct (array_get (students st) i); [|exact H].
    destruct ok; [exact I | exact H].
Qed.


Lemma boot_editIndex ls st0 : boot ls = Some st0 -> editIndex st0 = None.
Proof.
  unfold boot. destruct (records_of _); [|discriminate]. now intros [= <-].
Qed.




(** The form's own reset does what typing four empty texts does. *)
Lemma pressReset_as_events st :
  pressReset st = run [TypeName []; TypeId []; TypeEmail []; TypeContact []] st.
Proof. reflexivity. Qed.




Lemma array_set_map_Some rs i v :
  (0 <= i < Z.of_nat (List.length (map Some rs)))%Z ->
  array_set (map Some rs) i v
  = map Some (firstn (Z.to_nat i) rs ++ v :: skipn (S (Z.to_nat i)) rs).
Proof.
  intros H. unfold array_set.
  assert (E : (i <? 0)%Z = false) by (apply Z.ltb_ge; lia). rewrite E.
  assert (E' : (Z.to_nat i <? List.length (map Some rs))%nat = true)
    by (apply Nat.ltb_lt; lia).
  rewrite E'. now rewrite firstn_map, skipn_map, map_app.
Qed.

Lemma array_splice1_map_Some rs i :
  (0 <= i < Z.of_nat (List.length (map Some rs)))%Z ->
  array_splice1 (map Some rs) i
  = map Some (firstn (Z.to_nat i) rs ++ skipn (S (Z.to_nat i)) rs).
Proof.
  intros H. unfold array_splice1.
  assert (E : (i <? 0)%Z = false) by (apply Z.ltb_ge; lia). rewrite E.
  rewrite Z.min_l by lia.
  now rewrite firstn_map, skipn_map, map_app.
Qed.

Lemma Forall_firstn_skipn {A} (P : A -> Prop) n (l : list A) :
  Forall P l -> Forall P (firstn n l) /\ Forall P (skipn n l).
Proof.
  intros H. rewrite <- (firstn_skipn n l) in H. now apply Forall_app in H.
Qed.

Lemma holds_valid_intro st rs :
  students st = map Some rs ->
  tbody st = render_rows 0 (students st) ->
  localStorage st = Some (stringify (students st)) ->
  Forall (fun r => valid_record r = true) rs ->
  holds_valid st rs.
Proof.
  intros Hs Ht Hl Hv. unfold holds_valid.
  rewrite Hl, Ht, Hs, loadStudents_stringify. cbn [records_of].
  rewrite records_of_list_values. auto.
Qed.

Lemma holds_valid_step e st rs :
  holds_valid st rs -> edit_marker_ok st ->
  exists rs', holds_valid (step e st) rs'.
Proof.
  intros (Hs & Ht & Hl & Hv) Hm.
  destruct e as [x|x|x|x| |i|i ok]; cbn [step handleRowAction];
    try (exists rs; repeat split; assumption).
  - (* submit *)
    unfold submit.
    destruct (validateForm_cases st) as [(m & E)|(v & E & Hvv)]; rewrite E.
    { exists rs. repeat split; assumption. }
    destruct (array_some _ _ && _).
    { exists rs. repeat split; assumption. }
    unfold edit_marker_ok in Hm.
    destruct (editIndex st) as [i|].
    + destruct Hm as [Hr _]. rewrite Hs in Hr.
      eexists. apply holds_valid_intro; cbn; try reflexivity.
      * rewrite Hs. now apply array_set_map_Some.
      * apply Forall_app. split; [now apply Forall_firstn_skipn|].
        constructor; [assumption | now apply Forall_firstn_skipn].
    + exists (rs ++ [v]). apply holds_valid_intro; cbn; try reflexivity.
      * unfold array_push. now rewrite Hs, map_app.
      * apply Forall_app. split; [assumption | now constructor].
  - (* edit *)
    unfold startEdit. destruct (array_get (students st) i);
      exists rs; repeat split; assumption.
  - (* delete *)
    unfold deleteRow. destruct (array_get (students st) i) as [s|] eqn:E.
    2:{ exists rs; repeat split; assumption. }
    destruct ok; cbn [negb].
    2:{ exists rs; repeat split; assumption. }
    apply array_get_Some in E as [Hr _]. rewrite Hs in Hr.
    eexists. apply holds_valid_intro; cbn; try reflexivity.
    + rewrite Hs. now apply array_splice1_map_Some.
    + apply Forall_app. split; now apply Forall_firstn_skipn.
Qed.

Lemma holds_valid_run es : forall st rs,
  holds_valid st rs -> edit_marker_ok st ->
  exists rs', holds_valid (run es st) rs'.
Proof.
  induction es as [|e es IH]; intros st rs H Hm; [eauto|].
  destruct (holds_valid_step e st rs H Hm) as [rs' H'].
  cbn [run fold_left]. apply (IH _ rs' H'). now apply edit_marker_step.
Qed.

Lemma array_set_In a i v x :
  In x (array_set a i v) -> In x a \/ x = Some v \/ x = None.
Proof.
  unfold array_set. destruct (i <? 0)%Z; [tauto|].
  destruct (Z.to_nat i <? List.length a)%nat.
  - rewrite in_app_iff. cbn [In]. intros [H|[H|H]].
    + left. rewrite <- (firstn_skipn (Z.to_nat i) a). apply in_or_app. now left.
    + auto.
    + left. rewrite <- (firstn_skipn (S (Z.to_nat i)) a). apply in_or_app. now right.
  - rewrite !in_app_iff. cbn [In]. intros [H|[H|[H|[]]]]; auto.
    apply repeat_spec in H. auto.
Qed.

Lemma array_splice1_In a i x : In x (array_splice1 a i) -> In x a.
Proof.
  unfold array_splice1. set (n := Z.to_nat _).
  rewrite in_app_iff. intros [H|H].
  - rewrite <- (firstn_skipn n a). apply in_or_app. now left.
  - rewrite <- (firstn_skipn (S n) a). apply in_or_app. now right.
Qed.

Lemma step_adds_only_validated e st r :
  In (Some r) (students (step e st)) ->
  In (Some r) (students st)
  \/ (snd (validateForm st) = VOk r /\ valid_record r = true).
Proof.
  destruct e as [x|x|x|x| |i|i ok]; cbn [step handleRowAction]; try (now left).
  - unfold submit.
    destruct (validateForm_cases st) as [(m & E)|(v & E & Hvv)]; rewrite E;
      [now left|].
    destruct (array_some _ _ && _); [now left|].
    cbn [snd].
    destruct (editIndex st) as [i|]; cbn.
    + intros H. apply array_set_In in H as [H|[H|H]]; [now left | | discriminate].
      injection H as ->. now right.
    + unfold array_push. rewrite in_app_iff. cbn [In].
      intros [H|[H|[]]]; [now left|]. injection H as ->. now right.
  - unfold startEdit. destruct (array_get (students st) i); now left.
  - unfold deleteRow. destruct (array_get (students st) i); [|now left].
    destruct ok; cbn; [|now left].
    intros H. left. now apply array_splice1_In in H.
Qed.

Lemma boot_holds ls st0 :
  boot ls = Some st0 ->
  exists rs, records_of (loadStudents ls) = Some rs
    /\ students st0 = map Some rs
    /\ tbody st0 = render_rows 0 (map Some rs)
    /\ localStorage st0 = ls
    /\ editIndex st0 = None.
Proof.
  unfold boot. destruct (records_of (loadStudents ls)) as [rs|]; [|discriminate].
  intros [= <-]. exists rs. repeat split.
Qed.

(** The start-up is defined on a missing, empty or unparsable slot and on
    every text [saveStudents] writes for a sequence of records. *)
Lemma boot_defined ls :
  ls = None
  \/ (exists raw, ls = Some raw /\ JSON_parse raw = None)
  \/ (exists rs, ls = Some (stringify (map Some rs))) ->
  boot ls <> None.
Proof.
  unfold boot. intros [->|[(raw & -> & E)|(rs & ->)]].
  - discriminate.
  - unfold loadStudents. rewrite E. destruct (falsy raw); discriminate.
  - rewrite loadStudents_stringify. cbn [records_of].
    rewrite records_of_list_values. discriminate.
Qed.

(** C3, as the code has it: on a page started on a slot that is missing,
    empty or unparsable, or that holds, in the layout [saveStudents] writes
    (an array of objects with exactly the string members [name], [id],
    [email], [contact]), records that satisfy the four field constraints,
    and more generally from any page whose store, table and slot hold the
    same valid records: after every sequence of events the store is a
    sequence of records that all satisfy the constraints, the table shows
    exactly this sequence and the storage reads back as it.  A step puts a
    record into the store only when [validateForm] returned it; the other
    records come from [loadStudents], which checks nothing. *)
Theorem validated_records_only :
  (forall (ls : storage) (es : list event),
      (forall rs, records_of (loadStudents ls) = Some rs ->
         Forall (fun r => valid_record r = true) rs) ->
      valid_after ls es)
  /\ (forall (e : event) (st : state) (r : StudentRecord),
        In (Some r) (students (step e st)) ->
        In (Some r) (students st)
        \/ (snd (validateForm st) = VOk r /\ valid_record r = true))
  /\ (forall (st0 : state) (rs : list StudentRecord) (es : list event),
        holds_valid st0 rs -> edit_marker_ok st0 ->
        exists rs', holds_valid (run es st0) rs')
  /\ (forall ls : storage,
        ls = None
        \/ (exists raw, ls = Some raw /\ JSON_parse raw = None)
        \/ (exists rs, ls = Some (stringify (map Some rs))) ->
        boot ls <> None).
Proof.
  split; [|split; [apply step_adds_only_validated|split]].
  - intros ls es Hv st0 Hb.
    destruct (boot_holds ls st0 Hb) as (rs & Hr & Hs & Ht & Hl & He).
    apply (holds_valid_run es st0 rs).
    + unfold holds_valid. rewrite Hl. auto.
    + unfold edit_marker_ok. now rewrite He.
  - intros st0 rs es. apply holds_valid_run.
  - exact boot_defined.
Qed.

Lemma validated_records_witness :
  valid_after None
    [TypeName (lit "Ann Lee"); TypeId (lit "123"); TypeEmail (lit "a@b.com");
     TypeContact (lit "1234567890"); Submit; ClickEdit 0;
     TypeContact (lit "555"); Submit].
Proof.
  apply (proj1 validated_records_only).
  intros rs [= <-]. constructor.
Defined.

(** C3, as stated, fails: a page started on a slot holding a record with
    the name [<b>] stores and shows that record. *)
Lemma loaded_record_shown_unvalidated :
  ~ valid_after (Some (stringify [Some odd])) [].
Proof.
  intros H. destruct (H _ eq_refl) as (rs & Hs & _ & _ & Hv).
  cbn in Hs. destruct rs as [|r [|r' rs]]; try discriminate.
  injection Hs as <-. inversion Hv as [|? ? Ho _]. discriminate Ho.
Qed.

(** The scenario of the specification: add Ann Lee on an empty store, edit
    her row, fail with contact 555, succeed with contact 9999999999. *)
Example end_to_end_scenario :
  let add := [TypeName (lit "Ann Lee"); TypeId (lit "123");
              TypeEmail (lit "a@b.com"); TypeContact (lit "1234567890"); Submit] in
  exists st0, boot None = Some st0
  /\ students (run add st0) = [Some ann]
  /\ localStorage (run add st0) = Some (stringify [Some ann])
  /\ nameInput (run add st0) = [] /\ submitBtn (run add st0) = "Add Student"%string
  /\ contactInput (run (add ++ [ClickEdit 0]) st0) = lit "1234567890"
  /\ submitBtn (run (add ++ [ClickEdit 0]) st0) = "Update Student"%string
  /\ students (run (add ++ [ClickEdit 0; TypeContact (lit "555"); Submit]) st0)
     = [Some ann]
  /\ editIndex (run (add ++ [ClickEdit 0; TypeContact (lit "555"); Submit]) st0)
     = Some 0%Z
  /\ students (run (add ++ [ClickEdit 0; TypeContact (lit "555"); Submit;
                            TypeContact (lit "9999999999"); Submit]) st0)
     = [Some (mkStudent (lit "Ann Lee") (lit "123") (lit "a@b.com") (lit "9999999999"))]
  /\ submitBtn (run (add ++ [ClickEdit 0; TypeContact (lit "555"); Submit;
                             TypeContact (lit "9999999999"); Submit]) st0)
     = "Add Student"%string.
Proof. eexists. split; [reflexivity|]. repeat split. Qed.

End Controller.

(* ----------------------------------------------------------------- *)
(** ** Trimming *)

Section Trimming.

Lemma trimStart_clean s : starts_clean (trimStart s).
Proof.
  induction s as [|c s IH]; cbn [trimStart]; [exact I|].
  destruct (is_space c) eqn:E; [exact IH | exact E].
Qed.

Lemma trimStart_id s : starts_clean s -> trimStart s = s.
Proof. destruct s as [|c s]; cbn; [reflexivity|]. now intros ->. Qed.

Lemma trimStart_split s :
  exists ws, s = ws ++ trimStart s /\ forallb is_space ws = true.
Proof.
  induction s as [|c s (ws & E & H)]; cbn [trimStart].
  - now exists [].
  - destruct (is_space c) eqn:Ec.
    + exists (c :: ws). cbn. rewrite Ec, H. split; [now f_equal | reflexivity].
    + now exists [].
Qed.

Lemma trimStart_nil_iff s : trimStart s = [] <-> forallb is_space s = true.
Proof.
  induction s as [|c s IH]; cbn [trimStart forallb]; [tauto|].
  destruct (is_space c); cbn [andb]; [exact IH|]. split; discriminate.
Qed.

Lemma forallb_rev (p : N -> bool) s : forallb p (rev s) = forallb p s.
Proof.
  induction s as [|c s IH]; [reflexivity|].
  cbn [rev forallb]. rewrite forallb_app, IH. cbn. rewrite andb_true_r.
  apply andb_comm.
Qed.

Lemma trim_nil_iff s : trim s = [] <-> all_space s.
Proof.
  unfold trim, trimEnd, all_space.
  pose proof (trimStart_clean s) as Hc.
  split.
  - intros H. apply (f_equal (@rev N)) in H. rewrite rev_involutive in H. cbn in H.
    apply trimStart_nil_iff in H. rewrite forallb_rev in H.
    apply trimStart_nil_iff.
    destruct (trimStart s) as [|c t]; [reflexivity|].
    cbn in Hc, H. rewrite Hc in H. discriminate.
  - intros H. apply trimStart_nil_iff in H. now rewrite H.
Qed.

Lemma Forall_trimStart (P : N -> Prop) s : Forall P s -> Forall P (trimStart s).
Proof.
  intros H. destruct (trimStart_split s) as (ws & E & _).
  rewrite E in H. now apply Forall_app in H.
Qed.

Lemma Forall_trim (P : N -> Prop) s : Forall P s -> Forall P (trim s).
Proof.
  intros H. unfold trim, trimEnd.
  apply Forall_rev, Forall_trimStart, Forall_rev, Forall_trimStart, H.
Qed.

Lemma rev_clean_of_clean t u ws :
  starts_clean t -> rev t = ws ++ u -> starts_clean (rev u).
Proof.
  intros Hc E. apply (f_equal (@rev N)) in E.
  rewrite rev_involutive, rev_app_distr in E. subst t.
  destruct (rev u) as [|c r]; [exact I | exact Hc].
Qed.

(** Text that begins and ends with other than white space is its own trim. *)
Lemma trim_id s : starts_clean s -> starts_clean (rev s) -> trim s = s.
Proof.
  intros H1 H2. unfold trim, trimEnd.
  now rewrite (trimStart_id s H1), (trimStart_id _ H2), rev_involutive.
Qed.

Lemma trim_clean s : starts_clean (trim s) /\ starts_clean (rev (trim s)).
Proof.
  unfold trim, trimEnd. rewrite rev_involutive.
  split; [|apply trimStart_clean].
  destruct (trimStart_split (rev (trimStart s))) as (ws & E & _).
  exact (rev_clean_of_clean _ _ _ (trimStart_clean s) E).
Qed.

Lemma trim_idempotent s : trim (trim s) = trim s.
Proof. apply trim_id; apply trim_clean. Qed.

Lemma trim_nonspace s :
  Forall (fun c => is_space c = false) s -> trim s = s.
Proof.
  intros H. apply trim_id.
  - destruct H; [exact I | assumption].
  - apply Forall_rev in H. destruct H; [exact I | assumption].
Qed.

End Trimming.

(* ----------------------------------------------------------------- *)
(** ** The validator and the live filters *)

Section ValidatorMore.

Lemma digit_not_space c : digit_class c = true -> is_space c = false.
Proof.
  unfold digit_class, is_digit, is_space.
  rewrite andb_true_iff, !N.leb_le. intros [H1 H2].
  repeat (apply orb_false_iff; split);
    try (apply andb_false_iff; rewrite !N.leb_gt; lia);
    apply N.eqb_neq; lia.
Qed.

Lemma email_char_not_space c : email_class c = true -> is_space c = false.
Proof.
  unfold email_class. rewrite negb_true_iff, orb_false_iff. tauto.
Qed.

Lemma test_Plus_Cls p s :
  test (Plus (Cls p)) s = true <-> s <> [] /\ forallb p s = true.
Proof. rewrite test_Matches. apply Matches_Plus_Cls. Qed.

Lemma forallb_nonspace (p : N -> bool) s :
  (forall c, p c = true -> is_space c = false) ->
  forallb p s = true -> Forall (fun c => is_space c = false) s.
Proof.
  intros Hp H. apply Forall_forall. intros c Hc. apply Hp.
  rewrite forallb_forall in H. now apply H.
Qed.

Lemma id_re_nonspace s :
  test id_re s = true -> s <> [] /\ Forall (fun c => is_space c = false) s.
Proof.
  intros H. apply test_Plus_Cls in H as [Hn H]. split; [assumption|].
  exact (forallb_nonspace _ _ digit_not_space H).
Qed.

Lemma contact_re_nonspace s :
  test contact_re s = true -> s <> [] /\ Forall (fun c => is_space c = false) s.
Proof.
  unfold contact_re. rewrite test_Matches, Matches_AtLeast_Cls. intros [Hl H].
  split; [destruct s; [cbn in Hl; lia | discriminate]|].
  exact (forallb_nonspace _ _ digit_not_space H).
Qed.

Lemma email_re_nonspace s :
  test email_re s = true -> s <> [] /\ Forall (fun c => is_space c = false) s.
Proof.
  intros H. apply email_re_shape in H as (a & b & c & -> & Ha & _ & _ & Fa & Fb & Fc).
  split; [destruct a; [congruence | discriminate]|].
  assert (P : forall l, Forall plain l -> Forall (fun c => is_space c = false) l).
  { intros l Hl. eapply Forall_impl; [|exact Hl]. intros x [Hx _]. exact Hx. }
  apply Forall_app. split; [now apply P|].
  constructor; [reflexivity|]. apply Forall_app. split; [now apply P|].
  constructor; [reflexivity | now apply P].
Qed.

Lemma name_re_nonempty s : test name_re s = true -> s <> [].
Proof. intros H. now apply test_Plus_Cls in H. Qed.

Lemma falsy_false_of (s : jsstring) : s <> [] -> falsy s = false.
Proof. destruct s; [congruence | reflexivity]. Qed.

(** A form holding a record that satisfies the four constraints, with a
    name that neither begins nor ends with white space, validates to that
    record. *)
Lemma validateForm_accepts st r :
  form_holds st r -> valid_record r = true -> trim (name r) = name r ->
  validateForm st = (st, VOk r).
Proof.
  intros (Hn & Hi & He & Hc) Hv Ht. unfold valid_record in Hv.
  apply andb_true_iff in Hv as [Hv V4]. apply andb_true_iff in Hv as [Hv V3].
  apply andb_true_iff in Hv as [V1 V2].
  destruct (id_re_nonspace _ V2) as [N2 S2].
  destruct (email_re_nonspace _ V3) as [N3 S3].
  destruct (contact_re_nonspace _ V4) as [N4 S4].
  unfold validateForm. rewrite Hn, Hi, He, Hc, Ht.
  rewrite (trim_nonspace _ S2), (trim_nonspace _ S3), (trim_nonspace _ S4).
  rewrite (falsy_false_of _ (name_re_nonempty _ V1)), (falsy_false_of _ N2),
    (falsy_false_of _ N3), (falsy_false_of _ N4).
  cbn [orb]. rewrite V1, V2, V3, V4. cbn [negb]. now destruct r.
Qed.

Lemma validateForm_ok_fields st st' v :
  validateForm st = (st', VOk v) ->
  v = mkStudent (trim (nameInput st)) (trim (idInput st))
        (trim (emailInput st)) (trim (contactInput st)).
Proof.
  unfold validateForm, fail.
  destruct (falsy _ || falsy _ || falsy _ || falsy _); [discriminate|].
  destruct (negb (test name_re _)); [discriminate|].
  destruct (negb (test id_re _)); [discriminate|].
  destruct (negb (test email_re _)); [discriminate|].
  destruct (negb (test contact_re _)); [discriminate|].
  now intros [= _ <-].
Qed.

(** X4: what the validator returns is stable: a form filled with the four
    fields of a record [validateForm] has returned validates to the same
    record. *)
Theorem validated_record_validates_again :
  forall (st st' : state) (v : StudentRecord),
    snd (validateForm st) = VOk v ->
    form_holds st' v ->
    validateForm st' = (st', VOk v).
Proof.
  intros st st' v H Hf.
  destruct (validateForm st) as [st1 r] eqn:E. cbn in H. subst r.
  destruct (validateForm_ok _ _ _ E) as [_ Hv].
  apply validateForm_ok_fields in E.
  apply validateForm_accepts; [assumption | assumption |].
  subst v. cbn [name]. apply trim_idempotent.
Qed.

Lemma validated_again_witness :
  snd (validateForm form_ann) = VOk ann
  /\ validateForm (page [] None ann) = (page [] None ann, VOk ann).
Proof.
  split; [reflexivity|].
  apply (validated_record_validates_again form_ann (page [] None ann) ann);
    [reflexivity | repeat split].
Defined.

(** X1: [validateForm] answers with the required-fields message exactly
    when one of the four inputs is empty or holds white space only,
    whatever the other inputs hold. *)
Theorem missing_field_iff_blank :
  forall st : state,
    snd (validateForm st) = VFail (message MissingField)
    <-> (all_space (nameInput st) \/ all_space (idInput st)
         \/ all_space (emailInput st) \/ all_space (contactInput st)).
Proof.
  intros st. rewrite <- !trim_nil_iff, <- !falsy_nil, <- !orb_true_iff, !orb_assoc.
  unfold validateForm, fail.
  destruct (falsy _ || falsy _ || falsy _ || falsy _); cbn [snd].
  - split; reflexivity.
  - split; [|discriminate].
    destruct (negb (test name_re _)); [discriminate|].
    destruct (negb (test id_re _)); [discriminate|].
    destruct (negb (test email_re _)); [discriminate|].
    destruct (negb (test contact_re _)); discriminate.
Qed.

Lemma forallb_filter_same (p : N -> bool) s : forallb p (filter p s) = true.
Proof.
  induction s as [|c s IH]; [reflexivity|]. cbn [filter].
  destruct (p c) eqn:E; [cbn; now rewrite E|exact IH].
Qed.

Lemma filter_same (p : N -> bool) s : forallb p s = true -> filter p s = s.
Proof.
  induction s as [|c s IH]; [reflexivity|]. cbn [forallb filter].
  intros H. apply andb_true_iff in H as [Hc Hs]. now rewrite Hc, IH.
Qed.

Lemma forallb_trim (p : N -> bool) s : forallb p s = true -> forallb p (trim s) = true.
Proof.
  intros H. apply forallb_forall. intros c Hc.
  assert (F : Forall (fun c => p c = true) (trim s)).
  { apply Forall_trim. apply Forall_forall. now apply forallb_forall. }
  rewrite Forall_forall in F. now apply F.
Qed.

Lemma trim_digits s : forallb digit_class s = true -> trim s = s.
Proof.
  intros H. apply trim_nonspace. exact (forallb_nonspace _ _ digit_not_space H).
Qed.

(** X2: once the [input] listeners have filtered the name, id and contact
    fields, a submission is never rejected for its name or its id: it is
    accepted, or rejected for a missing field, for the email, or for a
    contact of fewer than ten digits. *)
Theorem filtered_form_failures :
  forall (st : state) (a b c : jsstring),
    let st' := step (TypeContact c) (step (TypeId b) (step (TypeName a) st)) in
    snd (validateForm st') = VFail (message MissingField)
    \/ snd (validateForm st') = VFail (message InvalidEmail)
    \/ (snd (validateForm st') = VFail (message InvalidContact)
        /\ (List.length (filter digit_class c) < 10)%nat)
    \/ exists v, snd (validateForm st') = VOk v.
Proof.
  intros st a b c. cbv zeta.
  cbn [step set_nameInput set_idInput set_contactInput].
  unfold validateForm, fail. cbv zeta.
  cbn [nameInput idInput emailInput contactInput
       set_nameInput set_idInput set_contactInput].
  pose proof (forallb_filter_same name_class a) as Fa.
  pose proof (forallb_filter_same digit_class b) as Fb.
  pose proof (forallb_filter_same digit_class c) as Fc.
  rewrite (trim_digits _ Fb), (trim_digits _ Fc).
  apply forallb_trim in Fa.
  set (n := trim (filter name_class a)) in *.
  set (i := filter digit_class b) in *. set (k := filter digit_class c) in *.
  destruct (falsy n || falsy i || falsy (trim (emailInput st)) || falsy k) eqn:E0;
    [now left|].
  rewrite !orb_false_iff, !falsy_not_nil in E0. destruct E0 as [[[Hn Hi] He] Hk].
  assert (T1 : test name_re n = true) by (apply test_Plus_Cls; auto).
  assert (T2 : test id_re i = true) by (apply test_Plus_Cls; auto).
  rewrite T1, T2. cbn [negb].
  destruct (test email_re _); cbn [negb snd]; [|right; now left].
  destruct (test contact_re k) eqn:T4; cbn [negb snd]; [right; right; right; eauto|].
  right; right; left. split; [reflexivity|].
  destruct (Nat.lt_ge_cases (List.length k) 10) as [Hl|Hl]; [assumption|].
  exfalso. assert (T : test contact_re k = true); [|congruence].
  unfold contact_re. rewrite test_Matches, Matches_AtLeast_Cls. auto.
Qed.

(** X3: the [input] listeners leave untouched every name, id and contact
    that [validateForm] has accepted. *)
Theorem filters_keep_validated_values :
  forall (st st' : state) (v : StudentRecord),
    snd (validateForm st) = VOk v ->
    nameInput (step (TypeName (name v)) st') = name v
    /\ idInput (step (TypeId (id v)) st') = id v
    /\ contactInput (step (TypeContact (contact v)) st') = contact v.
Proof.
  intros st st' v H.
  destruct (validateForm st) as [st1 r] eqn:E. cbn in H. subst r.
  destruct (validateForm_ok _ _ _ E) as [_ Hv]. unfold valid_record in Hv.
  apply andb_true_iff in Hv as [Hv V4]. apply andb_true_iff in Hv as [Hv _].
  apply andb_true_iff in Hv as [V1 V2].
  apply test_Plus_Cls in V1 as [_ V1]. apply test_Plus_Cls in V2 as [_ V2].
  unfold contact_re in V4. rewrite test_Matches, Matches_AtLeast_Cls in V4.
  destruct V4 as [_ V4].
  cbn [step set_nameInput set_idInput set_contactInput nameInput idInput contactInput].
  now rewrite (filter_same _ _ V1), (filter_same _ _ V2), (filter_same _ _ V4).
Qed.

Lemma filters_keep_witness :
  snd (validateForm form_ann) = VOk ann
  /\ nameInput (step (TypeName (name ann)) (page [] None bob)) = name ann.
Proof.
  split; [reflexivity|].
  apply (filters_keep_validated_values form_ann (page [] None bob) ann). reflexivity.
Defined.

End ValidatorMore.

(* ----------------------------------------------------------------- *)
(** ** The controller, step by step *)

Section ControllerMore.

Lemma array_set_same a i r : array_get a i = Some r -> array_set a i r = a.
Proof.
  intros H. apply array_get_Some in H as [Hr Hn].
  unfold array_set.
  assert (E : (i <? 0)%Z = false) by (apply Z.ltb_ge; lia). rewrite E.
  assert (E' : (Z.to_nat i <? List.length a)%nat = true) by (apply Nat.ltb_lt; lia).
  rewrite E'. now apply firstn_skipn_middle.
Qed.

Lemma startEdit_in_range st i r :
  array_get (students st) i = Some r ->
  form_holds (startEdit i st)
    (mkStudent (input_value (name r)) (input_value (id r))
       (input_value (email r)) (input_value (contact r)))
  /\ editIndex (startEdit i st) = Some i
  /\ students (startEdit i st) = students st
  /\ localStorage (startEdit i st) = localStorage st
  /\ tbody (startEdit i st) = tbody st
  /\ submitBtn (startEdit i st) = "Update Student"%string.
Proof. intros H. unfold startEdit. rewrite H. repeat split. Qed.

Lemma input_value_same (p : N -> bool) s :
  (forall c, p c = true -> c <> 10 /\ c <> 13) ->
  forallb p s = true -> input_value s = s.
Proof.
  intros Hp H. unfold input_value. apply filter_same.
  apply forallb_forall. intros c Hc.
  rewrite forallb_forall in H. destruct (Hp c (H c Hc)) as [H1 H2].
  apply N.eqb_neq in H1, H2. now rewrite H1, H2.
Qed.

Lemma name_class_no_break c : name_class c = true -> c <> 10 /\ c <> 13.
Proof.
  intros H. apply name_class_spec in H. unfold letter, SPACE in H. lia.
Qed.

Lemma digit_class_no_break c : digit_class c = true -> c <> 10 /\ c <> 13.
Proof. intros H. apply digit_class_spec in H. unfold digit in H. lia. Qed.

Lemma nonspace_no_break c : is_space c = false -> c <> 10 /\ c <> 13.
Proof. intros H. split; intros ->; discriminate H. Qed.

(** A record that satisfies the four constraints holds no line break: the
    inputs take its fields as they are. *)
Lemma valid_record_one_line r :
  valid_record r = true ->
  mkStudent (input_value (name r)) (input_value (id r))
    (input_value (email r)) (input_value (contact r)) = r.
Proof.
  intros Hv. unfold valid_record in Hv.
  apply andb_true_iff in Hv as [Hv V4]. apply andb_true_iff in Hv as [Hv V3].
  apply andb_true_iff in Hv as [V1 V2].
  apply test_Plus_Cls in V1 as [_ V1]. apply test_Plus_Cls in V2 as [_ V2].
  destruct (email_re_nonspace _ V3) as [_ S3].
  unfold contact_re in V4. rewrite test_Matches, Matches_AtLeast_Cls in V4.
  destruct V4 as [_ V4].
  rewrite (input_value_same _ _ name_class_no_break V1),
    (input_value_same _ _ digit_class_no_break V2),
    (input_value_same _ _ digit_class_no_break V4).
  assert (E : input_value (email r) = email r).
  { apply (input_value_same (fun c => negb (is_space c))).
    - intros c Hc. apply nonspace_no_break. now apply negb_true_iff.
    - apply forallb_forall. intros c Hc. rewrite Forall_forall in S3.
      apply negb_true_iff. now apply S3. }
  rewrite E. now destruct r.
Qed.

(** X5: pressing Edit on a row whose record satisfies the four
    constraints and has a trimmed name, then submitting the form as
    [startEdit] filled it, leaves the sequence of records as it was, ends
    edit mode and persists the sequence. *)
Theorem edit_without_change_keeps_store :
  forall (st : state) (i : Z) (r : StudentRecord),
    array_get (students st) i = Some r ->
    valid_record r = true ->
    trim (name r) = name r ->
    students (submit (startEdit i st)) = students st
    /\ editIndex (submit (startEdit i st)) = None
    /\ localStorage (submit (startEdit i st)) = Some (stringify (students st)).
Proof.
  intros st i r Hg Hv Ht.
  destruct (startEdit_in_range st i r Hg) as (Hf & He & Hs & _).
  rewrite (valid_record_one_line r Hv) in Hf.
  pose proof (validateForm_accepts _ _ Hf Hv Ht) as E.
  rewrite (submit_edit _ _ _ E He).
  cbn [students editIndex localStorage resetForm renderTable saveStudents
       set_localStorage announce set_students].
  rewrite Hs, (array_set_same _ _ _ Hg). repeat split.
Qed.

Lemma edit_without_change_witness :
  array_get (students (page [Some bob; Some ann] None bob)) 1 = Some ann
  /\ students (submit (startEdit 1 (page [Some bob; Some ann] None bob)))
     = [Some bob; Some ann].
Proof.
  split; [reflexivity|].
  apply (edit_without_change_keeps_store (page [Some bob; Some ann] None bob) 1 ann);
    reflexivity.
Defined.

Lemma array_splice1_in_range a i :
  (0 <= i < Z.of_nat (List.length a))%Z ->
  array_splice1 a i = firstn (Z.to_nat i) a ++ skipn (S (Z.to_nat i)) a.
Proof.
  intros H. unfold array_splice1.
  assert (E : (i <? 0)%Z = false) by (apply Z.ltb_ge; lia). rewrite E.
  now rewrite Z.min_l by lia.
Qed.

(** X6: a confirmed delete of the record at position [i] makes the
    sequence one shorter, keeps the positions before [i] and moves each
    later record one position down; the result is persisted and drawn, the
    form is cleared and back in adding mode. *)
Theorem confirmed_delete_shifts_down :
  forall (st : state) (i : Z) (s : StudentRecord),
    array_get (students st) i = Some s ->
    S (List.length (students (deleteRow i true st))) = List.length (students st)
    /\ (forall j, (j < Z.to_nat i)%nat ->
          nth_error (students (deleteRow i true st)) j = nth_error (students st) j)
    /\ (forall j, (Z.to_nat i <= j)%nat ->
          nth_error (students (deleteRow i true st)) j
          = nth_error (students st) (S j))
    /\ committed (deleteRow i true st)
    /\ formMsg (deleteRow i true st) = "Record deleted."%string.
Proof.
  intros st i s H. unfold deleteRow. rewrite H. cbn [negb].
  apply array_get_Some in H as [Hr _].
  cbn [students formMsg resetForm renderTable saveStudents set_localStorage
       announce set_students].
  rewrite (array_splice1_in_range _ _ Hr).
  set (n := Z.to_nat i). assert (Hn : (n < List.length (students st))%nat) by lia.
  assert (Hf : List.length (firstn n (students st)) = n)
    by (rewrite length_firstn; lia).
  split; [|split; [|split; [|split]]].
  - rewrite length_app, Hf, length_skipn. lia.
  - intros j Hj. rewrite nth_error_app1 by lia.
    now rewrite nth_error_firstn, (proj2 (Nat.ltb_lt j n) Hj).
  - intros j Hj. rewrite nth_error_app2 by lia.
    rewrite Hf, nth_error_skipn. f_equal. lia.
  - unfold committed. cbn. repeat split.
  - reflexivity.
Qed.

Lemma confirmed_delete_witness :
  array_get (students (page [Some ann] (Some 0%Z) bob)) 0 = Some ann
  /\ students (deleteRow 0 true (page [Some ann] (Some 0%Z) bob)) = []
  /\ localStorage (deleteRow 0 true (page [Some ann] (Some 0%Z) bob)) = Some (lit "[]")
  /\ emptyState (deleteRow 0 true (page [Some ann] (Some 0%Z) bob)) = true.
Proof.
  split; [reflexivity|].
  pose proof (confirmed_delete_shifts_down (page [Some ann] (Some 0%Z) bob) 0 ann eq_refl)
    as (Hl & _ & _ & Hc & _).
  assert (E : students (deleteRow 0 true (page [Some ann] (Some 0%Z) bob)) = []).
  { destruct (students (deleteRow 0 true (page [Some ann] (Some 0%Z) bob)));
      [reflexivity | cbn in Hl; lia]. }
  destruct Hc as (H1 & _ & H3 & _). rewrite E in H1, H3. auto.
Defined.

Lemma committed_commit msg a st :
  committed (resetForm (renderTable (saveStudents (announce msg (set_students a st))))).
Proof. unfold committed. cbn. repeat split. Qed.

(** X7: a step that changes the store or the storage slot always ends
    with the store persisted, the table redrawn from it, the form cleared
    and the controller in adding mode. *)
Theorem mutation_persists_redraws_resets :
  forall (e : event) (st : state),
    students (step e st) <> students st
    \/ localStorage (step e st) <> localStorage st ->
    committed (step e st).
Proof.
  intros e st.
  destruct e as [x|x|x|x| |i|i ok]; cbn [step handleRowAction];
    try (intros [H|H]; now contradiction H).
  - unfold submit.
    destruct (validateForm_cases st) as [(m & E)|(v & E & _)]; rewrite E.
    { intros [H|H]; now contradiction H. }
    destruct (array_some _ _ && _).
    { intros [H|H]; now contradiction H. }
    intros _. destruct (editIndex st); apply committed_commit.
  - unfold startEdit. destruct (array_get (students st) i);
      intros [H|H]; now contradiction H.
  - unfold deleteRow. destruct (array_get (students st) i);
      [|intros [H|H]; now contradiction H].
    destruct ok; cbn [negb]; [|intros [H|H]; now contradiction H].
    intros _. unfold committed. cbn. repeat split.
Qed.

Lemma mutation_commit_witness :
  committed (step Submit (page [Some ann] None bob)).
Proof.
  apply (mutation_persists_redraws_resets Submit (page [Some ann] None bob)).
  left. discriminate.
Defined.

Lemma in_sync_intro st rs :
  students st = map Some rs ->
  tbody st = render_rows 0 (students st) ->
  emptyState st = Nat.eqb (List.length (students st)) 0 ->
  localStorage st = Some (stringify (students st)) ->
  in_sync st rs.
Proof.
  intros Hs Ht He Hl. unfold in_sync.
  rewrite Hl, Ht, He, Hs, loadStudents_stringify, length_map. cbn [records_of].
  rewrite records_of_list_values. auto.
Qed.

Lemma in_sync_step e st rs :
  in_sync st rs -> edit_marker_ok st -> exists rs', in_sync (step e st) rs'.
Proof.
  intros (Hs & Ht & He & Hl) Hm.
  destruct e as [x|x|x|x| |i|i ok]; cbn [step handleRowAction];
    try (exists rs; repeat split; assumption).
  - unfold submit.
    destruct (validateForm_cases st) as [(m & E)|(v & E & _)]; rewrite E.
    { exists rs. repeat split; assumption. }
    destruct (array_some _ _ && _).
    { exists rs. repeat split; assumption. }
    unfold edit_marker_ok in Hm.
    destruct (editIndex st) as [i|].
    + destruct Hm as [Hr _]. rewrite Hs in Hr.
      eexists. apply in_sync_intro; cbn; try reflexivity.
      rewrite Hs. now apply array_set_map_Some.
    + exists (rs ++ [v]). apply in_sync_intro; cbn; try reflexivity.
      unfold array_push. now rewrite Hs, map_app.
  - unfold startEdit. destruct (array_get (students st) i);
      exists rs; repeat split; assumption.
  - unfold deleteRow. destruct (array_get (students st) i) as [s|] eqn:E.
    2:{ exists rs; repeat split; assumption. }
    destruct ok; cbn [negb].
    2:{ exists rs; repeat split; assumption. }
    apply array_get_Some in E as [Hr _]. rewrite Hs in Hr.
    eexists. apply in_sync_intro; cbn; try reflexivity.
    rewrite Hs. now apply array_splice1_map_Some.
Qed.

Lemma in_sync_run es : forall st rs,
  in_sync st rs -> edit_marker_ok st -> exists rs', in_sync (run es st) rs'.
Proof.
  induction es as [|e es IH]; intros st rs H M; [eauto|].
  destruct (in_sync_step e st rs H M) as [rs' H'].
  cbn [run fold_left]. apply (IH _ rs' H'). now apply edit_marker_step.
Qed.

(** X8: from any page on which the store (without hole), the table, the
    empty hint and the storage slot agree and the edit marker is valid,
    they still agree after every sequence of events.  Such is the page
    started on a slot that is missing, empty or unparsable, or that holds
    records, valid or not, in the layout [saveStudents] writes. *)
Theorem store_table_storage_agree :
  (forall (st0 : state) (rs : list StudentRecord) (es : list event),
      in_sync st0 rs -> edit_marker_ok st0 ->
      exists rs', in_sync (run es st0) rs')
  /\ (forall (ls : storage) (st0 : state),
        boot ls = Some st0 ->
        (exists rs, in_sync st0 rs) /\ edit_marker_ok st0)
  /\ (forall ls : storage,
        ls = None
        \/ (exists raw, ls = Some raw /\ JSON_parse raw = None)
        \/ (exists rs, ls = Some (stringify (map Some rs))) ->
        exists st0, boot ls = Some st0).
Proof.
  split; [intros st0 rs es; apply in_sync_run|]. split.
  - intros ls st0 Hb.
    destruct (boot_holds ls st0 Hb) as (rs & Hr & Hs & Ht & Hl & He).
    split; [|unfold edit_marker_ok; now rewrite He].
    exists rs. unfold in_sync. rewrite Hl. repeat split; try assumption.
    unfold boot in Hb. rewrite Hr in Hb. injection Hb as <-. cbn.
    now rewrite length_map.
  - intros ls H. apply boot_defined in H.
    destruct (boot ls) as [st0|]; [eauto | congruence].
Qed.

Lemma store_table_storage_witness :
  in_sync (page [Some odd; Some ann] None bob) [odd; ann]
  /\ exists rs,
       in_sync (run [ClickEdit 0; TypeContact (lit "0123456789"); Submit;
                     ClickDelete 0 true]
                  (page [Some odd; Some ann] None bob)) rs.
Proof.
  assert (H : in_sync (page [Some odd; Some ann] None bob) [odd; ann])
    by (repeat split).
  split; [exact H|].
  exact (proj1 store_table_storage_agree (page [Some odd; Some ann] None bob)
           [odd; ann]
           [ClickEdit 0; TypeContact (lit "0123456789"); Submit; ClickDelete 0 true]
           H I).
Defined.

(** X9: the text of the submit button follows the mode: if it says
    "Update Student" exactly while a record is being edited, it still does
    after any sequence of events. *)
Theorem submit_label_tracks_mode :
  forall (es : list event) (st : state),
    label_ok st -> label_ok (run es st).
Proof.
  induction es as [|e es IH]; intros st H; [exact H|].
  cbn [run fold_left]. apply IH. clear IH es.
  destruct e as [x|x|x|x| |i|i ok]; cbn [step handleRowAction]; try exact H.
  - unfold submit.
    destruct (validateForm_cases st) as [(m & E)|(v & E & _)]; rewrite E;
      [exact H|].
    destruct (array_some _ _ && _); [exact H | reflexivity].
  - unfold startEdit. destruct (array_get (students st) i); [reflexivity | exact H].
  - unfold deleteRow. destruct (array_get (students st) i); [|exact H].
    destruct ok; [reflexivity | exact H].
Qed.

Lemma submit_label_witness :
  label_ok (page [Some ann] None bob)
  /\ label_ok (run [ClickEdit 0; TypeContact (lit "555"); Submit]
                 (page [Some ann] None bob)).
Proof.
  split; [reflexivity|].
  apply (submit_label_tracks_mode [ClickEdit 0; TypeContact (lit "555"); Submit]
           (page [Some ann] None bob)).
  reflexivity.
Defined.

End ControllerMore.

(* ----------------------------------------------------------------- *)
(** ** The table *)

Section Table.

Lemma render_rows_map_Some rs : forall idx k,
  nth_error (render_rows idx (map Some rs)) k
  = option_map (render_row (idx + k)) (nth_error rs k).
Proof.
  induction rs as [|r rs IH]; intros idx k; cbn [map render_rows].
  - now destruct k.
  - destruct k as [|k]; cbn [nth_error option_map].
    + now rewrite Nat.add_0_r.
    + rewrite IH. now rewrite Nat.add_succ_comm.
Qed.

Lemma render_rows_length rs idx :
  List.length (render_rows idx (map Some rs)) = List.length rs.
Proof.
  revert idx. induction rs as [|r rs IH]; intros idx; [reflexivity|].
  cbn [map render_rows List.length]. now rewrite IH.
Qed.

(** X10: [renderTable] draws one row per record, in store order: row [k]
    is the drawing of record [k], labelled [k + 1] and carrying index [k];
    the empty hint is shown exactly when there is no record. *)
Theorem table_rows_follow_store :
  forall (st : state) (rs : list StudentRecord),
    students st = map Some rs ->
    List.length (tbody (renderTable st)) = List.length rs
    /\ (forall k, nth_error (tbody (renderTable st)) k
                  = option_map (render_row k) (nth_error rs k))
    /\ (emptyState (renderTable st) = true <-> rs = []).
Proof.
  intros st rs H. cbn [tbody emptyState renderTable]. rewrite H.
  split; [apply render_rows_length|]. split.
  - intros k. apply (render_rows_map_Some rs 0 k).
  - rewrite length_map, Nat.eqb_eq. destruct rs; cbn; split; congruence.
Qed.

Lemma table_rows_witness :
  students (page [Some ann; Some bob] None odd) = map Some [ann; bob]
  /\ nth_error (tbody (renderTable (page [Some ann; Some bob] None odd))) 1
     = Some (render_row 1 bob).
Proof.
  split; [reflexivity|].
  exact (proj1 (proj2 (table_rows_follow_store
           (page [Some ann; Some bob] None odd) [ann; bob] eq_refl)) 1%nat).
Defined.

Lemma array_get_of_nat a k s :
  nth_error a k = Some (Some s) -> array_get a (Z.of_nat k) = Some s.
Proof.
  intros H. unfold array_get.
  assert (E : (Z.of_nat k <? 0)%Z = false) by (apply Z.ltb_ge; lia).
  now rewrite E, Nat2Z.id, H.
Qed.

(** X11: the buttons of a drawn row act on the record the row shows: the
    four cells are the escaped fields of the record at the row's index,
    Edit marks that position and, when the record satisfies the four
    field constraints, fills the form with its four fields; a confirmed
    Delete removes that position. *)
Theorem row_buttons_act_on_their_record :
  forall (st : state) (r : row),
    In r (tbody (renderTable st)) ->
    exists s,
      array_get (students st) (edit_index r) = Some s
      /\ delete_index r = edit_index r
      /\ cell_name r = escapeHtml (name s)
      /\ cell_id r = escapeHtml (id s)
      /\ cell_email r = escapeHtml (email s)
      /\ cell_contact r = escapeHtml (contact s)
      /\ editIndex (handleRowAction Edit (edit_index r) false (renderTable st))
         = Some (edit_index r)
      /\ (valid_record s = true ->
          form_holds (handleRowAction Edit (edit_index r) false (renderTable st)) s)
      /\ students (handleRowAction Delete (delete_index r) true (renderTable st))
         = array_splice1 (students st) (edit_index r).
Proof.
  intros st r H. cbn [tbody renderTable] in H.
  apply render_rows_In in H as (k & s & Hk & ->).
  exists s.
  cbn [edit_index delete_index cell_name cell_id cell_email cell_contact
       render_row Nat.add].
  pose proof (array_get_of_nat _ _ _ Hk) as Hg.
  split; [exact Hg|]. do 5 (split; [reflexivity|]).
  cbn [handleRowAction].
  assert (Hg' : array_get (students (renderTable st)) (Z.of_nat k) = Some s) by exact Hg.
  destruct (startEdit_in_range _ _ _ Hg') as (Hf & He & _).
  split; [exact He|]. split.
  - intros Hv. now rewrite (valid_record_one_line s Hv) in Hf.
  - unfold deleteRow. rewrite Hg'. reflexivity.
Qed.

Lemma row_buttons_witness :
  In (render_row 1 bob) (tbody (renderTable (page [Some ann; Some bob] None odd)))
  /\ exists s,
       array_get (students (page [Some ann; Some bob] None odd))
         (edit_index (render_row 1 bob)) = Some s
       /\ cell_contact (render_row 1 bob) = escapeHtml (contact s).
Proof.
  assert (H : In (render_row 1 bob)
                (tbody (renderTable (page [Some ann; Some bob] None odd))))
    by (right; left; reflexivity).
  split; [exact H|].
  destruct (row_buttons_act_on_their_record _ _ H) as (s & H1 & _ & _ & _ & _ & H2 & _).
  exists s. split; assumption.
Defined.

End Table.

(* ----------------------------------------------------------------- *)
(** ** Escaping, continued *)

Section EscapingMore.

Lemma escape_unit_length c :
  (1 <= List.length (escape_unit c))%nat
  /\ (List.length (escape_unit c) = 1%nat -> ~ special c).
Proof.
  destruct (escape_unit_table c) as [[H E]|[[-> E]|[[-> E]|[[-> E]|[[-> E]|[-> E]]]]]];
    rewrite E; cbn; split; try lia; try discriminate. intros _. exact H.
Qed.

Lemma flat_map_escape_length s :
  (List.length s <= List.length (flat_map escape_unit s))%nat.
Proof.
  induction s as [|c s IH]; [cbn; lia|].
  cbn [flat_map List.length]. rewrite length_app.
  pose proof (proj1 (escape_unit_length c)). lia.
Qed.

Lemma escapeHtml_fixed_iff s :
  escapeHtml s = s <-> (forall c, In c s -> ~ special c).
Proof.
  rewrite escapeHtml_flat_map. split.
  - intros H. apply (f_equal (@List.length N)) in H. revert H.
    induction s as [|c s IH]; intros H x Hx; [contradiction|].
    cbn [flat_map List.length] in H. rewrite length_app in H.
    pose proof (escape_unit_length c) as [L1 L2].
    pose proof (flat_map_escape_length s) as L3.
    destruct Hx as [<-|Hx]; [apply L2; lia | apply IH; [lia | exact Hx]].
  - induction s as [|c s IH]; intros H; [reflexivity|].
    cbn [flat_map]. rewrite escape_unit_plain by (apply H; now left).
    cbn [app]. f_equal. apply IH. intros x Hx. apply H. now right.
Qed.

Lemma name_class_not_special c : name_class c = true -> ~ special c.
Proof.
  intros H. apply name_class_spec in H. unfold letter, SPACE in H.
  unfold special, AMP, LT, GT, QUOTE, APOS. lia.
Qed.

Lemma digit_class_not_special c : digit_class c = true -> ~ special c.
Proof.
  intros H. apply digit_class_spec in H. unfold digit in H.
  unfold special, AMP, LT, GT, QUOTE, APOS. lia.
Qed.

Lemma forallb_not_special (p : N -> bool) s :
  (forall c, p c = true -> ~ special c) ->
  forallb p s = true -> escapeHtml s = s.
Proof.
  intros Hp H. apply escapeHtml_fixed_iff. intros c Hc. apply Hp.
  rewrite forallb_forall in H. now apply H.
Qed.

(** X12: [escapeHtml] returns a text unchanged exactly when the text has
    none of the five characters it replaces; hence the name, id and contact
    of a record that satisfies the field constraints are shown as they
    are. *)
Theorem plain_text_is_shown_verbatim :
  (forall s : jsstring, escapeHtml s = s <-> (forall c, In c s -> ~ special c))
  /\ (forall (r : StudentRecord) (idx : nat),
        valid_record r = true ->
        cell_name (render_row idx r) = name r
        /\ cell_id (render_row idx r) = id r
        /\ cell_contact (render_row idx r) = contact r).
Proof.
  split; [exact escapeHtml_fixed_iff|].
  intros r idx Hv. unfold valid_record in Hv.
  apply andb_true_iff in Hv as [Hv V4]. apply andb_true_iff in Hv as [Hv _].
  apply andb_true_iff in Hv as [V1 V2].
  apply test_Plus_Cls in V1 as [_ V1]. apply test_Plus_Cls in V2 as [_ V2].
  unfold contact_re in V4. rewrite test_Matches, Matches_AtLeast_Cls in V4.
  destruct V4 as [_ V4].
  cbn [cell_name cell_id cell_contact render_row].
  split; [exact (forallb_not_special _ _ name_class_not_special V1)|].
  split; [exact (forallb_not_special _ _ digit_class_not_special V2)|].
  exact (forallb_not_special _ _ digit_class_not_special V4).
Qed.

Lemma plain_text_witness :
  valid_record ann = true /\ cell_name (render_row 0 ann) = name ann.
Proof.
  split; [reflexivity|].
  apply (proj2 plain_text_is_shown_verbatim ann 0%nat). reflexivity.
Defined.

Lemma escape_unit_prefix_free c d x y :
  escape_unit c ++ x = escape_unit d ++ y -> c = d /\ x = y.
Proof.
  destruct (escape_unit_table c) as [[Hc Ec]|[[-> Ec]|[[-> Ec]|[[-> Ec]|[[-> Ec]|[-> Ec]]]]]];
  destruct (escape_unit_table d) as [[Hd Ed]|[[-> Ed]|[[-> Ed]|[[-> Ed]|[[-> Ed]|[-> Ed]]]]]];
    rewrite Ec, ?Ed; cbn; intros H;
    try discriminate H;
    try (injection H as H; split; congruence);
    try (exfalso; injection H as H _; first [apply Hc | apply Hd];
         unfold special; left; unfold AMP in *; congruence);
    try (injection H as <- <-; split; reflexivity).
Qed.

Lemma flat_map_escape_injective a : forall b,
  flat_map escape_unit a = flat_map escape_unit b -> a = b.
Proof.
  induction a as [|c a IH]; intros [|d b] H; cbn [flat_map] in H.
  - reflexivity.
  - pose proof (proj1 (escape_unit_length d)) as L.
    apply (f_equal (@List.length N)) in H. rewrite length_app in H. cbn in H. lia.
  - pose proof (proj1 (escape_unit_length c)) as L.
    apply (f_equal (@List.length N)) in H. rewrite length_app in H. cbn in H. lia.
  - apply escape_unit_prefix_free in H as [-> H]. f_equal. now apply IH.
Qed.

(** X13: [escapeHtml] never maps two different texts to the same output. *)
Theorem escapeHtml_injective :
  forall a b : jsstring, escapeHtml a = escapeHtml b -> a = b.
Proof.
  intros a b. rewrite !escapeHtml_flat_map. apply flat_map_escape_injective.
Qed.

Lemma escapeHtml_injective_witness :
  escapeHtml (lit "&lt;") = escapeHtml [AMP; 108; 116; 59]
  /\ lit "&lt;" = [AMP; 108; 116; 59].
Proof.
  split; [reflexivity|].
  apply (escapeHtml_injective (lit "&lt;") [AMP; 108; 116; 59]). reflexivity.
Defined.

End EscapingMore.
